(** * Context-overflow recovery: token analyzer, compression engine and
      compression service

    A shallow embedding of
      - [infrastructure/external/compression/token_error_analyzer.py],
      - [infrastructure/external/compression/llm_compression_engine.py],
      - [infrastructure/services/compression_service.py],
      - [infrastructure/external/llm/openai_llm.py] (the retry of [ask])
    together with the properties the design document states about them and
    further properties read off the code.

    Conventions.  Python [str] values are Rocq strings whose characters are
    the code points below 256; on that range [\d] is exactly the ten ASCII
    digits and case-insensitive comparison with an ASCII letter is ASCII
    case folding.  Python [int] is [Z]; [int] of a digit string is its exact
    value, or [ValueError] beyond the interpreter's default limit of 4300
    digits.  Message dictionaries are finite
    maps from keys to Python values, living in a store of objects so that
    identity, copying and in-place update can be told apart. *)

From Stdlib Require Import ZArith Lia Ascii DecimalString DecimalPos Floats Uint63.
From stdpp Require Import base option list strings gmap.

Local Open Scope string_scope.
Local Open Scope list_scope.

(** ** Exceptions and results *)

(** The exceptions [except Exception] catches. *)
Inductive exn : Type :=
  | KeyError (key : string)
  | TypeError
  | ValueError
  | OverflowError
  | ValidationError
  | OtherException (msg : string).

Inductive result (A : Type) : Type :=
  | Ok (a : A)
  | Raise (e : exn).
Arguments Ok {A} a.
Arguments Raise {A} e.

#[global] Instance result_ret : MRet result := fun A a => Ok a.
#[global] Instance result_bind : MBind result := fun A B f r =>
  match r with
  | Ok a => f a
  | Raise e => Raise e
  end.

(** ** Python strings and integers *)

Module Py.

(** [len(s)] *)
Definition len (s : string) : Z := Z.of_nat (String.length s).

(** [s[:n]]: a non-negative bound keeps at most [n] characters, a negative
    bound drops the last [-n] characters. *)
Definition slice_to (s : string) (n : Z) : string :=
  if (0 <=? n)%Z then String.substring 0 (Z.to_nat n) s
  else String.substring 0 (Z.to_nat (len s + n)) s.

(** [str(n)] for an integer. *)
Definition str_of_int (n : Z) : string := NilZero.string_of_int (Z.to_int n).

(** [bool(s)] for a string: non-empty. *)
Definition truthy (s : string) : bool :=
  match s with EmptyString => false | String _ _ => true end.

Definition is_digit (c : ascii) : bool :=
  let n := nat_of_ascii c in (48 <=? n)%nat && (n <=? 57)%nat.

Definition digit_value (c : ascii) : Z := Z.of_nat (nat_of_ascii c) - 48.

(** [int(s)] for a string of decimal digits. *)
Fixpoint int_of_digits_from (acc : Z) (s : string) : Z :=
  match s with
  | EmptyString => acc
  | String c s' =>
      int_of_digits_from
        (10 * acc + (if is_digit c then digit_value c else 0))%Z s'
  end.

Definition int_of_digits (s : string) : Z := int_of_digits_from 0 s.

(** [sys.int_info.default_max_str_digits]: the longest digit string [int]
    converts. *)
Definition MAX_STR_DIGITS : nat := 4300.

(** [int(s)] for a string of decimal digits: its value, or [ValueError]
    when the string has more than [MAX_STR_DIGITS] digits (leading zeros
    count). *)
Definition int_of_str (s : string) : result Z :=
  if (MAX_STR_DIGITS <? String.length s)%nat then Raise ValueError
  else Ok (int_of_digits s).

(** ASCII lower-casing, the folding [re.IGNORECASE] applies on this range. *)
Definition lower (c : ascii) : ascii :=
  let n := nat_of_ascii c in
  if (65 <=? n)%nat && (n <=? 90)%nat then ascii_of_nat (n + 32) else c.

Definition eqb_nocase (a b : ascii) : bool := Ascii.eqb (lower a) (lower b).

Definition is_newline (c : ascii) : bool := Ascii.eqb c "010"%char.

(** [sep.join(parts)] *)
Fixpoint join (sep : string) (parts : list string) : string :=
  match parts with
  | [] => ""
  | [p] => p
  | p :: rest => p +:+ sep +:+ join sep rest
  end.

End Py.

(** ** The fragment of regular expressions the analyzer uses

    Every pattern of [parse_error_info] is a sequence of literal characters
    (matched ignoring case), capturing groups [(\d+)] (greedy) and lazy
    wildcards [.*?] (any characters but a newline).  The matcher below is the
    backtracking search of Python's [re]: alternatives are tried in the
    engine's priority order and the first complete match wins. *)

Module Regex.

Inductive atom : Type :=
  | Lit (c : ascii)   (* one literal character, case-insensitive *)
  | Digits            (* (\d+) *)
  | LazyAny.          (* .*?   *)

Fixpoint lit (s : string) : list atom :=
  match s with
  | EmptyString => []
  | String c s' => Lit c :: lit s'
  end.

(** [match_here p s caps]: match [p] at the very start of [s]; the groups
    captured so far are [caps]. *)
Fixpoint match_here (p : list atom) (s : string) (caps : list string)
  : option (list string) :=
  match p with
  | [] => Some caps
  | Lit c :: p' =>
      match s with
      | String x s' => if Py.eqb_nocase c x then match_here p' s' caps else None
      | EmptyString => None
      end
  | Digits :: p' =>
      (fix run (s : string) (acc : string) {struct s} : option (list string) :=
         match s with
         | String x s' =>
             if Py.is_digit x then
               match run s' (acc +:+ String x "") with
               | Some r => Some r
               | None => match_here p' s' (caps ++ [acc +:+ String x ""])
               end
             else None
         | EmptyString => None
         end) s ""
  | LazyAny :: p' =>
      (fix skip (s : string) {struct s} : option (list string) :=
         match match_here p' s caps with
         | Some r => Some r
         | None =>
             match s with
             | String x s' => if Py.is_newline x then None else skip s'
             | EmptyString => None
             end
         end) s
  end.

(** [re.search]: the leftmost position at which the pattern matches. *)
Fixpoint search (p : list atom) (s : string) : option (list string) :=
  match match_here p s [] with
  | Some r => Some r
  | None =>
      match s with
      | String _ s' => search p s'
      | EmptyString => None
      end
  end.

(** [match.group(i)], groups numbered from 1. *)
Definition group (m : list string) (i : nat) : string := nth (i - 1) m "".

End Regex.

(** ** Token analyzer ([TokenErrorAnalyzer]) *)

Module TokenErrorAnalyzer.

Import Regex.

Definition patterns : list (list atom) :=
  [ lit "maximum context length is " ++ [Digits] ++ lit " tokens"
      ++ [LazyAny] ++ [Digits] ++ lit " tokens";
    lit "token limit" ++ [LazyAny; Digits; LazyAny] ++ lit "current"
      ++ [LazyAny; Digits];
    lit "context length exceeded" ++ [LazyAny; Digits; LazyAny; Digits];
    lit "Request too large" ++ [LazyAny; Digits; LazyAny; Digits] ].

(** The [for pattern in patterns] loop: the first pattern that matches. *)
Fixpoint first_match (ps : list (list atom)) (s : string)
  : option (list string) :=
  match ps with
  | [] => None
  | p :: ps' =>
      match search p s with
      | Some m => Some m
      | None => first_match ps' s
      end
  end.

Definition parse_error_info (error_message : string) : result (Z * Z) :=
  match first_match patterns error_message with
  | Some m =>
      num1 ← Py.int_of_str (group m 1);
      num2 ← Py.int_of_str (group m 2);
      let max_tokens := Z.min num1 num2 in
      let current_tokens := Z.max num1 num2 in
      Ok (max_tokens, current_tokens)
  | None => Ok (4096, 5000)%Z
  end.

Definition estimate_tokens (text : string) : Z :=
  if Py.truthy text then (Py.len text / 3)%Z else 0%Z.

End TokenErrorAnalyzer.

(** ** Python values *)

Inductive value : Type :=
  | VStr (s : string)
  | VInt (n : Z)
  | VBool (b : bool)
  | VNone.

#[global] Instance value_eq_dec : EqDecision value.
Proof. solve_decision. Defined.

Module PyVal.

(** [str(v)], as an f-string renders a value. *)
Definition str (v : value) : string :=
  match v with
  | VStr s => s
  | VInt n => Py.str_of_int n
  | VBool true => "True"
  | VBool false => "False"
  | VNone => "None"
  end.

(** [d.get(k, default)] *)
Definition get (d : gmap string value) (k : string) (dflt : value) : value :=
  default dflt (d !! k).

(** [d[k]] *)
Definition getitem (d : gmap string value) (k : string) : result value :=
  match d !! k with
  | Some v => Ok v
  | None => Raise (KeyError k)
  end.

(** [s + v] for a string [s]: defined on strings only. *)
Definition str_add (s : string) (v : value) : result string :=
  match v with
  | VStr t => Ok (s +:+ t)
  | _ => Raise TypeError
  end.

(** [len(v)]: of the values modelled here only strings are sized. *)
Definition len (v : value) : result Z :=
  match v with
  | VStr s => Ok (Py.len s)
  | _ => Raise TypeError
  end.

End PyVal.

(** ** Conversion of integers to floating point

    [max_tokens * 0.25] converts the integer to a double first: the nearest
    value with 53 significant bits, ties going to the even significand, and
    [OverflowError] when the result would reach [2^1024].  Multiplying a
    double by 0.25 only lowers its exponent, hence is exact here, and [int]
    truncates towards zero. *)

Module PyFloat.

(** Nearest integer with at most 53 significant bits, for [0 <= n]. *)
Definition round53 (n : Z) : Z :=
  if (n <? 2 ^ 53)%Z then n
  else
    let e := (Z.log2 n - 52)%Z in
    let q := (n / 2 ^ e)%Z in
    let r := (n mod 2 ^ e)%Z in
    let half := (2 ^ (e - 1))%Z in
    let q' := if (half <? r)%Z || ((r =? half)%Z && Z.odd q)
              then (q + 1)%Z else q in
    (q' * 2 ^ e)%Z.

(** [float(n)], given as the integer the double denotes. *)
Definition of_int (n : Z) : result Z :=
  let v := (Z.sgn n * round53 (Z.abs n))%Z in
  if (2 ^ 1024 <=? Z.abs v)%Z then Raise OverflowError else Ok v.

(** [int(n * 0.25)] *)
Definition int_mul_quarter (n : Z) : result Z :=
  v ← of_int n; Ok (Z.quot v 4).

(** The same computation on the kernel's binary64 numbers, for integers
    below [2^63]; it serves to check [round53] against IEEE 754 arithmetic
    on sample values. *)
Definition value_of_double (x : float) : option Z :=
  match Prim2SF x with
  | S754_zero _ => Some 0%Z
  | S754_finite negative m e =>
      let magnitude :=
        if (0 <=? e)%Z then (Z.pos m * 2 ^ e)%Z else (Z.pos m / 2 ^ (- e))%Z in
      Some (if negative then (- magnitude)%Z else magnitude)
  | _ => None
  end.

Definition binary64_int_mul_quarter (n : Z) : option Z :=
  value_of_double
    (PrimFloat.mul (PrimFloat.of_uint63 (Uint63.of_Z n)) 0.25%float).

Definition samples : list Z :=
  [ 0; 1; 3; 4096; 5000; 2 ^ 53 - 1; 2 ^ 53; 2 ^ 53 + 1; 2 ^ 53 + 3;
    2 ^ 54 + 2; 2 ^ 54 + 6; 2 ^ 55 - 1; 2 ^ 62 + 2 ^ 9; 2 ^ 63 - 1 ]%Z.

End PyFloat.

(** ** Compression engine ([LlmCompressionEngine]) *)

Definition nl : string := String "010"%char EmptyString.
Definition dq : string := String "034"%char EmptyString.

(** What one call of [llm.ask] does: raise, or return the response
    dictionary. *)
Definition LLM : Type := list (gmap string value) -> result (gmap string value).

Module LlmCompressionEngine.

Definition _get_compression_prompt (summary content : string) : string :=
  nl +:+
  "Please intelligently compress and summarize the following content, following these important rules:" +:+ nl +:+
  nl +:+
  "1. **JSON Structure Protection**: If content contains JSON format data (such as plans, steps, tool_calls, etc.), the JSON structure and all field values must be completely preserved" +:+ nl +:+
  "EXAMPLE JSON:" +:+ nl +:+
  "{" +:+ nl +:+
  "    " +:+ dq +:+ "message" +:+ dq +:+ ": " +:+ dq +:+ "User response message" +:+ dq +:+ "," +:+ nl +:+
  "    " +:+ dq +:+ "goal" +:+ dq +:+ ": " +:+ dq +:+ "Goal description" +:+ dq +:+ "," +:+ nl +:+
  "    " +:+ dq +:+ "title" +:+ dq +:+ ": " +:+ dq +:+ "Plan title" +:+ dq +:+ "," +:+ nl +:+
  "    " +:+ dq +:+ "steps" +:+ dq +:+ ": [" +:+ nl +:+
  "        {" +:+ nl +:+
  "            " +:+ dq +:+ "id" +:+ dq +:+ ": " +:+ dq +:+ "1" +:+ dq +:+ "," +:+ nl +:+
  "            " +:+ dq +:+ "description" +:+ dq +:+ ": " +:+ dq +:+ "Step 1 description" +:+ dq +:+ nl +:+
  "        }" +:+ nl +:+
  "    ]" +:+ nl +:+
  "}" +:+ nl +:+
  "You must return the JSON structure exactly as it is, without any modification or addition." +:+ nl +:+
  nl +:+
  "2. **Key Information Retention**: Maintain accuracy and completeness of task objectives, execution status, and tool call results" +:+ nl +:+
  "3. **Descriptive Compression**: Only compress and simplify descriptive text, preserve all structured data" +:+ nl +:+
  "4. **Logical Coherence**: Ensure compressed content can support subsequent business logic processing" +:+ nl +:+
  nl +:+
  "Current accumulated summary:" +:+ nl +:+
  (if Py.truthy summary then summary
   else "(First compression, no historical summary)") +:+ nl +:+
  nl +:+
  "New content to be compressed:" +:+ nl +:+
  content +:+ nl +:+
  nl +:+
  "Please return the compressed content summary, ensuring all JSON structures and key business information are preserved:" +:+ nl.

Definition _fallback_compression (summary content : string) (max_tokens : Z)
  : string :=
  let target_length := (max_tokens * 3)%Z in
  if Py.truthy summary then
    let available_for_content := (target_length - Py.len summary - 100)%Z in
    if (0 <? available_for_content)%Z then
      let truncated_content := Py.slice_to content available_for_content in
      summary +:+ nl +:+ nl +:+ "[New Content Summary] "
        +:+ truncated_content +:+ "..."
    else
      Py.slice_to summary target_length +:+ "..."
  else
    Py.slice_to content target_length +:+ "...".

Definition request (compression_prompt : string) : list (gmap string value) :=
  [ {[ "role" := VStr "system";
       "content" := VStr "You are a professional content compression assistant. Please perform intelligent compression according to user requirements." ]};
    {[ "role" := VStr "user"; "content" := VStr compression_prompt ]} ].

(** The [try] block of [compress_content]; the log line after the call
    takes [len] of the returned content, still inside the block. *)
Definition compress_content_try (llm : LLM) (summary content : string)
  : result string :=
  let compression_prompt := _get_compression_prompt summary content in
  response ← llm (request compression_prompt);
  let compressed_result := PyVal.get response "content" (VStr "") in
  _ ← PyVal.len compressed_result;
  match compressed_result with
  | VStr text => Ok text
  | _ => Raise TypeError
  end.

Definition compress_content (llm : LLM) (summary content : string)
    (max_tokens : Z) : string :=
  match compress_content_try llm summary content with
  | Ok compressed_result => compressed_result
  | Raise e => _fallback_compression summary content max_tokens
  end.

End LlmCompressionEngine.

(** ** Collaborator interfaces ([domain/external/compression.py])

    Both protocols are implemented outside the service and may raise.  The
    engine and the clock are external: their answer to the [k]-th request of
    a run is whatever the instance says for index [k]. *)

Class TokenAnalyzer : Type := {
  parse_error_info : string -> result (Z * Z);
  estimate_tokens : string -> result Z
}.

Class CompressionEngine : Type := {
  compress_content : nat -> string -> string -> Z -> result string
}.

Class Clock : Type := {
  epoch_seconds : nat -> Z   (* int(time.time()) at the k-th reading *)
}.

#[global] Instance token_error_analyzer : TokenAnalyzer := {|
  parse_error_info s := TokenErrorAnalyzer.parse_error_info s;
  estimate_tokens s := Ok (TokenErrorAnalyzer.estimate_tokens s)
|}.

Definition llm_compression_engine (llm : nat -> LLM) : CompressionEngine := {|
  compress_content k summary content max_tokens :=
    Ok (LlmCompressionEngine.compress_content (llm k) summary content max_tokens)
|}.

(** ** The store of message objects and the effects of the service *)

Record engine_call : Type := {
  call_summary : string;
  call_content : string;
  call_max_tokens : Z;
  call_outcome : result string
}.

(** A message list is a list of references into [heap]. *)
Record world : Type := {
  heap : list (gmap string value);
  engine_log : list engine_call;
  clock_reads : nat
}.

Definition M (A : Type) : Type := world -> result A * world.

#[global] Instance M_ret : MRet M := fun A a w => (Ok a, w).
#[global] Instance M_bind : MBind M := fun A B f m w =>
  match m w with
  | (Ok a, w') => f a w'
  | (Raise e, w') => (Raise e, w')
  end.

Module Eff.

Definition lift {A} (r : result A) : M A := fun w => (r, w).

(** [try: body except Exception as e: handler e] *)
Definition try_except {A} (body : M A) (handler : exn -> M A) : M A :=
  fun w =>
    match body w with
    | (Ok a, w') => (Ok a, w')
    | (Raise e, w') => handler e w'
    end.

Definition deref (h : list (gmap string value)) (l : nat) : gmap string value :=
  default ∅ (h !! l).

(** Evaluate an expression that only reads the message objects. *)
Definition reads {A} (f : list (gmap string value) -> A) : M A :=
  fun w => (Ok (f (heap w)), w).

(** A dictionary display [{...}]: a new object. *)
Definition alloc (d : gmap string value) : M nat :=
  fun w => (Ok (length (heap w)),
            {| heap := heap w ++ [d];
               engine_log := engine_log w;
               clock_reads := clock_reads w |}).

(** [msg.copy()] *)
Definition copy (l : nat) : M nat :=
  d ← reads (fun h => deref h l); alloc d.

(** [msg[k] = v] *)
Definition setitem (l : nat) (k : string) (v : value) : M unit :=
  fun w => (Ok tt,
            {| heap := alter (fun d => <[k := v]> d) l (heap w);
               engine_log := engine_log w;
               clock_reads := clock_reads w |}).

(** [int(time.time())] *)
Definition now `{Clock} : M Z :=
  fun w => (Ok (epoch_seconds (clock_reads w)),
            {| heap := heap w;
               engine_log := engine_log w;
               clock_reads := S (clock_reads w) |}).

(** [await engine.compress_content(summary, content, max_tokens)] *)
Definition call_engine `{CompressionEngine}
    (summary content : string) (max_tokens : Z) : M string :=
  fun w =>
    let r := compress_content (length (engine_log w)) summary content max_tokens in
    (r, {| heap := heap w;
           engine_log := engine_log w ++
             [ {| call_summary := summary; call_content := content;
                  call_max_tokens := max_tokens; call_outcome := r |} ];
           clock_reads := clock_reads w |}).

(** The world with another log, or another store. *)
Definition with_log (w : world) (log : list engine_call) : world :=
  {| heap := heap w; engine_log := log; clock_reads := clock_reads w |}.

Definition with_heap (w : world) (h : list (gmap string value)) : world :=
  {| heap := h; engine_log := engine_log w; clock_reads := clock_reads w |}.

End Eff.

(** ** Compression service ([CompressionService]) *)

Record CompressionSegment : Type := {
  content : string;
  estimated_tokens : Z;
  message_types : list string
}.

Module CompressionService.

Import Eff.

Definition MAX_COMPRESSION_ROUNDS : nat := 3.

Definition role_of (message : gmap string value) : value :=
  PyVal.get message "role" (VStr "").

Definition _should_compress_message (message : gmap string value) : bool :=
  let role := role_of message in
  bool_decide (role = VStr "user") || bool_decide (role = VStr "tool").

(** The loop of [_separate_messages_by_compression_policy], over the current
    state [h] of the objects. *)
Fixpoint separate_loop (h : list (gmap string value)) (messages : list nat)
    (acc : list nat * list nat * list nat) : list nat * list nat * list nat :=
  match messages with
  | [] => acc
  | msg :: rest =>
      let '(system_messages, compressible_messages, protected_messages) := acc in
      let role := role_of (deref h msg) in
      if bool_decide (role = VStr "system") then
        separate_loop h rest
          (system_messages ++ [msg], compressible_messages, protected_messages)
      else if _should_compress_message (deref h msg) then
        separate_loop h rest
          (system_messages, compressible_messages ++ [msg], protected_messages)
      else
        separate_loop h rest
          (system_messages, compressible_messages, protected_messages ++ [msg])
  end.

Definition _separate_messages_by_compression_policy (messages : list nat)
  : M (list nat * list nat * list nat) :=
  reads (fun h => separate_loop h messages ([], [], [])).

Definition _format_message_content (message : gmap string value) : string :=
  let role := PyVal.get message "role" (VStr "unknown") in
  let content := PyVal.get message "content" (VStr "") in
  if bool_decide (role = VStr "tool") then
    let tool_call_id := PyVal.get message "tool_call_id" (VStr "") in
    "[Tool call result " +:+ PyVal.str tool_call_id +:+ "]: "
      +:+ PyVal.str content
  else
    "[" +:+ PyVal.str role +:+ "]: " +:+ PyVal.str content.

Definition _format_segment_content (content : string) : string := content.

(** Field validation of the [CompressionSegment] model: [message_types] is
    declared [List[str]]. *)
Fixpoint validate_types (types : list value) : result (list string) :=
  match types with
  | [] => Ok []
  | VStr s :: rest => rest' ← validate_types rest; Ok (s :: rest')
  | _ :: _ => Raise ValidationError
  end.

(** [CompressionSegment(content=.., estimated_tokens=..,
    message_types=list(set(current_types)))].  Python leaves open the order
    in which a set lists its elements (it changes with the hash seed): the
    list below is one of the possible orders, each role once, and no
    property proved here reads more of [message_types] than which roles it
    holds and that none is repeated. *)
Definition new_segment (current_content : string) (current_tokens : Z)
    (current_types : list value) : result CompressionSegment :=
  types ← validate_types (remove_dups current_types);
  Ok {| content := current_content;
        estimated_tokens := current_tokens;
        message_types := types |}.

Record split_state : Type := {
  segments : list CompressionSegment;
  current_content : string;
  current_tokens : Z;
  current_types : list value
}.

Section WithAnalyzer.
Context `{TokenAnalyzer}.

(** One iteration of the loop of [_split_into_segments]. *)
Definition split_step (segment_budget : Z) (st : split_state)
    (msg : gmap string value) : result split_state :=
  let msg_content := _format_message_content msg in
  msg_tokens ← estimate_tokens msg_content;
  let msg_type := PyVal.get msg "role" (VStr "unknown") in
  if (segment_budget <? current_tokens st + msg_tokens)%Z
     && Py.truthy (current_content st) then
    seg ← new_segment (current_content st) (current_tokens st) (current_types st);
    Ok {| segments := segments st ++ [seg];
          current_content := msg_content;
          current_tokens := msg_tokens;
          current_types := [msg_type] |}
  else
    Ok {| segments := segments st;
          current_content :=
            if Py.truthy (current_content st)
            then current_content st +:+ nl +:+ nl +:+ msg_content
            else msg_content;
          current_tokens := (current_tokens st + msg_tokens)%Z;
          current_types := current_types st ++ [msg_type] |}.

Fixpoint split_loop (segment_budget : Z) (st : split_state)
    (messages : list (gmap string value)) : result split_state :=
  match messages with
  | [] => Ok st
  | msg :: rest =>
      st' ← split_step segment_budget st msg;
      split_loop segment_budget st' rest
  end.

Definition _split_into_segments (messages : list (gmap string value))
    (segment_budget : Z) : result (list CompressionSegment) :=
  st ← split_loop segment_budget
         {| segments := []; current_content := "";
            current_tokens := 0; current_types := [] |} messages;
  if Py.truthy (current_content st) then
    seg ← new_segment (current_content st) (current_tokens st) (current_types st);
    Ok (segments st ++ [seg])
  else Ok (segments st).

End WithAnalyzer.

Section WithCollaborators.
Context `{TokenAnalyzer} `{CompressionEngine} `{Clock}.

(** The text the orchestrator puts in place of a round whose engine call
    raised. *)
Definition failed_round_summary (cumulative_summary : string)
    (round_num : nat) (segment_content : string) : string :=
  if Py.truthy cumulative_summary then
    cumulative_summary +:+ nl +:+ nl +:+ "[Round "
      +:+ Py.str_of_int (Z.of_nat round_num + 1)
      +:+ " compression failed, original content]: "
      +:+ Py.slice_to segment_content 200 +:+ "..."
  else
    "[Compression failed, original content]: "
      +:+ Py.slice_to segment_content 500 +:+ "...".

(** The [for round_num in range(compression_rounds)] loop; [todo] are the
    segments [segments[round_num:compression_rounds]]. *)
Fixpoint compression_loop (segment_budget : Z) (round_num : nat)
    (todo : list CompressionSegment) (cumulative_summary : string)
  : M string :=
  match todo with
  | [] => mret cumulative_summary
  | segment :: rest =>
      let segment_content := _format_segment_content (content segment) in
      cumulative_summary' ←
        try_except
          (call_engine cumulative_summary segment_content segment_budget)
          (fun e => mret (failed_round_summary cumulative_summary round_num
                            segment_content));
      compression_loop segment_budget (S round_num) rest cumulative_summary'
  end.

Definition skipped_notice (remaining_count : Z) : string :=
  nl +:+ nl +:+ "[Notice: " +:+ Py.str_of_int remaining_count
    +:+ " segments not processed due to compression round limit]".

(** Everything of [_progressive_compression] after segmentation. *)
Definition compress_segments (segments : list CompressionSegment)
    (segment_budget : Z) : M string :=
  let compression_rounds := Nat.min (length segments) MAX_COMPRESSION_ROUNDS in
  cumulative_summary ←
    compression_loop segment_budget 0 (take compression_rounds segments) "";
  if (MAX_COMPRESSION_ROUNDS <? length segments)%nat then
    let remaining_count :=
      (Z.of_nat (length segments) - Z.of_nat MAX_COMPRESSION_ROUNDS)%Z in
    mret (cumulative_summary +:+ skipped_notice remaining_count)
  else mret cumulative_summary.

Definition _progressive_compression (messages : list nat) (budget_tokens : Z)
  : M string :=
  let segment_budget := (budget_tokens / 2)%Z in
  objects ← reads (fun h => map (deref h) messages);
  segments ← lift (_split_into_segments objects segment_budget);
  compress_segments segments segment_budget.

Definition compressed_message (compressed_content : string) (timestamp : Z)
  : gmap string value :=
  {[ "role" := VStr "user";
     "content" := VStr ("[Compressed historical conversation content]"
                          +:+ nl +:+ nl +:+ compressed_content);
     "_compressed" := VBool true;
     "_compression_timestamp" := VInt timestamp ]}.

Definition _build_compressed_message (compressed_content : string) : M nat :=
  timestamp ← now;
  alloc (compressed_message compressed_content timestamp).

Definition placeholder_message : gmap string value :=
  {[ "role" := VStr "user";
     "content" := VStr "[Emergency mode] Please assist with current task." ]}.

(** [msg.get("role") == r] *)
Definition has_role (r : string) (message : gmap string value) : bool :=
  bool_decide (message !! "role" = Some (VStr r)).

Definition _emergency_fallback (messages : list nat) : M (list nat) :=
  system_messages ←
    reads (fun h => filter (fun msg => has_role "system" (deref h msg)) messages);
  user_messages ←
    reads (fun h => filter (fun msg => has_role "user" (deref h msg)) messages);
  let result := system_messages in
  match last user_messages with
  | Some last_user =>
      last_user_msg ← copy last_user;
      d ← reads (fun h => deref h last_user_msg);
      old ← lift (PyVal.getitem d "content");
      new ← lift (PyVal.str_add "[Emergency mode] " old);
      _ ← setitem last_user_msg "content" (VStr new);
      mret (result ++ [last_user_msg])
  | None =>
      p ← alloc placeholder_message;
      mret (result ++ [p])
  end.

(** [int(max_tokens * self.SYSTEM_PROMPT_RATIO)], the ratio being 0.25. *)
Definition system_budget_of (max_tokens : Z) : result Z :=
  PyFloat.int_mul_quarter max_tokens.

(** The [try] block of [handle_token_overflow]. *)
Definition handle_token_overflow_try (messages : list nat) (error_info : string)
  : M (list nat) :=
  limits ← lift (parse_error_info error_info);
  let max_tokens := limits.1 in
  system_budget ← lift (system_budget_of max_tokens);
  let compression_budget := (max_tokens - system_budget)%Z in
  parts ← _separate_messages_by_compression_policy messages;
  let '(system_messages, compressible_messages, protected_messages) := parts in
  let result_messages := system_messages in
  result_messages ←
    match compressible_messages with
    | _ :: _ =>
        compressed_content ←
          _progressive_compression compressible_messages compression_budget;
        compressed_msg ← _build_compressed_message compressed_content;
        mret (result_messages ++ [compressed_msg])
    | [] => mret result_messages
    end;
  mret (result_messages ++ protected_messages).

Definition handle_token_overflow (messages : list nat) (error_info : string)
  : M (list nat) :=
  try_except (handle_token_overflow_try messages error_info)
             (fun e => _emergency_fallback messages).

End WithCollaborators.

End CompressionService.

(** ** What the design document says, in its own words

    These definitions follow the specification, not the code; the theorems
    below compare them with the code. *)

Module Spec.

(** A text "truncated to [n] characters": its first [n] characters, all of
    it when it is shorter. *)
Definition truncate (s : string) (n : Z) : string :=
  String.substring 0 (Z.to_nat n) s.

Definition ellipsis : string := "...".

(** The engine's deterministic fallback (section 4.2). *)
Definition fallback (summary content : string) (max_tokens : Z) : string :=
  let budget := (max_tokens * 3 - Py.len summary - 100)%Z in
  if Py.truthy summary then
    if (0 <? budget)%Z then
      summary +:+ nl +:+ nl +:+ "[New Content Summary] "
        +:+ truncate content budget +:+ ellipsis
    else truncate summary (max_tokens * 3) +:+ ellipsis
  else truncate content (max_tokens * 3) +:+ ellipsis.

(** BudgetCompute and Segment (section 4.3), in exact integer arithmetic. *)
Definition system_budget (max_tokens : Z) : Z := (max_tokens / 4)%Z.
Definition compression_budget (max_tokens : Z) : Z :=
  (max_tokens - system_budget max_tokens)%Z.
Definition segment_budget (max_tokens : Z) : Z :=
  (compression_budget max_tokens / 2)%Z.

End Spec.

(** ** The messages behind each segment

    [_split_into_segments] keeps the text and the running estimate of the
    segment it is filling, not the messages themselves.  [groups] runs the
    same greedy loop on the messages, so that a segment can be related to
    the messages it was built from. *)

Module Grouping.

Section WithEstimate.
Variable est : string -> Z.

Definition cost (msg : gmap string value) : Z :=
  est (CompressionService._format_message_content msg).

Definition tokens (g : list (gmap string value)) : Z :=
  foldr (fun msg acc => (cost msg + acc)%Z) 0%Z g.

Definition nonempty {A} (l : list A) : bool :=
  match l with [] => false | _ :: _ => true end.

Fixpoint group_loop (segment_budget : Z)
    (done : list (list (gmap string value))) (cur : list (gmap string value))
    (messages : list (gmap string value))
  : list (list (gmap string value)) * list (gmap string value) :=
  match messages with
  | [] => (done, cur)
  | msg :: rest =>
      if (segment_budget <? tokens cur + cost msg)%Z && nonempty cur
      then group_loop segment_budget (done ++ [cur]) [msg] rest
      else group_loop segment_budget done (cur ++ [msg]) rest
  end.

Definition close (st : list (list (gmap string value)) * list (gmap string value))
  : list (list (gmap string value)) :=
  if nonempty st.2 then st.1 ++ [st.2] else st.1.

Definition groups (messages : list (gmap string value)) (segment_budget : Z)
  : list (list (gmap string value)) :=
  close (group_loop segment_budget [] [] messages).

Definition text_of (v : value) : option string :=
  match v with VStr s => Some s | _ => None end.

(** The segment a group of messages gives rise to. *)
Definition segment_of (g : list (gmap string value)) : CompressionSegment :=
  {| content :=
       Py.join (nl +:+ nl) (map CompressionService._format_message_content g);
     estimated_tokens := tokens g;
     message_types :=
       omap text_of
         (remove_dups (map (fun msg => PyVal.get msg "role" (VStr "unknown")) g)) |}.

(** A group is within the budget, or is one message that alone exceeds it. *)
Definition fits (segment_budget : Z) (g : list (gmap string value)) : Prop :=
  (tokens g <= segment_budget)%Z \/
  exists msg, g = [msg] /\ (segment_budget < cost msg)%Z.

(** A role that is a string, as [message_types] requires. *)
Definition textual (v : value) : Prop := exists s, v = VStr s.

(** The state of the loop of [_split_into_segments] stands for the groups
    closed so far and the messages of the segment being filled. *)
Definition stands_for (st : CompressionService.split_state)
    (done : list (list (gmap string value))) (cur : list (gmap string value))
  : Prop :=
  CompressionService.segments st = map segment_of done /\
  CompressionService.current_content st
    = Py.join (nl +:+ nl) (map CompressionService._format_message_content cur) /\
  CompressionService.current_tokens st = tokens cur /\
  CompressionService.current_types st
    = map (fun msg => PyVal.get msg "role" (VStr "unknown")) cur.

End WithEstimate.

End Grouping.

(** ** Reading the engine log *)

Module Rounds.

(** The cumulative summary a round leaves behind: the engine's answer, or
    the orchestrator's placeholder when the call raised. *)
Definition round_output (round_num : nat) (c : engine_call) : string :=
  match call_outcome c with
  | Ok s => s
  | Raise _ =>
      CompressionService.failed_round_summary
        (call_summary c) round_num (call_content c)
  end.

(** [chain s k cs s']: the calls [cs] are rounds [k], [k+1], ... run one
    after the other from the summary [s]: each call receives the summary the
    round before it left, and the last one leaves [s']. *)
Inductive chain : string -> nat -> list engine_call -> string -> Prop :=
  | chain_nil s k : chain s k [] s
  | chain_cons s k c cs s' :
      call_summary c = s ->
      chain (round_output k c) (S k) cs s' ->
      chain s k (c :: cs) s'.

End Rounds.

(** ** Classification of messages, as predicates on the objects *)

Module Classify.

Definition is_system (h : list (gmap string value)) (msg : nat) : bool :=
  bool_decide (CompressionService.role_of (Eff.deref h msg) = VStr "system").

Definition is_compressible (h : list (gmap string value)) (msg : nat) : bool :=
  negb (is_system h msg)
  && CompressionService._should_compress_message (Eff.deref h msg).

Definition is_protected (h : list (gmap string value)) (msg : nat) : bool :=
  negb (is_system h msg)
  && negb (CompressionService._should_compress_message (Eff.deref h msg)).

Definition is_user (h : list (gmap string value)) (msg : nat) : bool :=
  CompressionService.has_role "user" (Eff.deref h msg).

(** Every reference of the list denotes an object of the store. *)
Definition valid_refs (h : list (gmap string value)) (messages : list nat) : Prop :=
  Forall (fun msg => msg < length h) messages.

(** The last user message of the list, if there is one, has a string under
    ["content"]. *)
Definition last_user_has_text (h : list (gmap string value))
    (messages : list nat) : Prop :=
  forall u, last (filter (fun m => is_user h m) messages) = Some u ->
            exists c, Eff.deref h u !! "content" = Some (VStr c).

End Classify.
(** ** Sample collaborators and conversations *)

Module Examples.

(** An engine that answers every call, one that never does. *)
Definition engine_ok : CompressionEngine := {|
  compress_content k summary content max_tokens :=
    Ok ("summary " +:+ Py.str_of_int (Z.of_nat k))
|}.

Definition engine_down : CompressionEngine := {|
  compress_content k summary content max_tokens :=
    Raise (OtherException "connection refused")
|}.

Definition clock : Clock := {| epoch_seconds k := 1700000000%Z |}.

Definition llm_down : LLM := fun request => Raise (OtherException "timeout").

Definition conversation : list (gmap string value) :=
  [ {[ "role" := VStr "system"; "content" := VStr "You are an agent." ]};
    {[ "role" := VStr "user"; "content" := VStr "Plan a trip to Lisbon." ]};
    {[ "role" := VStr "assistant"; "content" := VStr "{plan}" ]};
    {[ "role" := VStr "tool"; "tool_call_id" := VStr "call_1";
       "content" := VStr "flights found" ]};
    {[ "role" := VStr "user"; "content" := VStr "Book the first one." ]} ].

(** The user and tool messages of [conversation]. *)
Definition compressible_part : list (gmap string value) :=
  map (Eff.deref conversation) [1; 3; 4].

Definition world0 : world :=
  {| heap := conversation; engine_log := []; clock_reads := 0 |}.

(** A user message without a ["content"] entry. *)
Definition bare_user : world :=
  {| heap := [ {[ "role" := VStr "user" ]} ]; engine_log := []; clock_reads := 0 |}.

Fixpoint zeros (n : nat) : string :=
  match n with
  | O => ""
  | S n' => String "0"%char (zeros n')
  end.

(** An error text whose two numbers are [10^309]: larger than any double. *)
Definition huge_limit_error : string :=
  "maximum context length is 1" +:+ zeros 309
    +:+ " tokens, however you requested 1" +:+ zeros 309 +:+ " tokens".

Definition message_of_length (n : nat) : gmap string value :=
  {[ "role" := VStr "user"; "content" := VStr (zeros n) ]}.

End Examples.

(** ** The rest of the service and further samples *)

Module CompressionServiceRest.

Import Eff.

(** The loop of [_separate_system_messages] (kept by the source for backward
    compatibility): [msg.get("role") == "system"] decides. *)
Fixpoint separate_system_loop (h : list (gmap string value))
    (messages : list nat) (acc : list nat * list nat) : list nat * list nat :=
  match messages with
  | [] => acc
  | msg :: rest =>
      let '(system_messages, other_messages) := acc in
      if CompressionService.has_role "system" (deref h msg) then
        separate_system_loop h rest (system_messages ++ [msg], other_messages)
      else
        separate_system_loop h rest (system_messages, other_messages ++ [msg])
  end.

Definition _separate_system_messages (messages : list nat)
  : M (list nat * list nat) :=
  reads (fun h => separate_system_loop h messages ([], [])).

End CompressionServiceRest.

Module MoreExamples.

(** A model that answers with a short text. *)
Definition llm_answers : LLM := fun request =>
  Ok {[ "role" := VStr "assistant"; "content" := VStr "short summary" ]}.

End MoreExamples.

(** ** Texts of a given shape *)

Module Text.

Fixpoint has_digit (s : string) : bool :=
  match s with
  | EmptyString => false
  | String c s' => Py.is_digit c || has_digit s'
  end.

Fixpoint has_newline (s : string) : bool :=
  match s with
  | EmptyString => false
  | String c s' => Py.is_newline c || has_newline s'
  end.

Fixpoint all_digits (s : string) : bool :=
  match s with
  | EmptyString => true
  | String c s' => Py.is_digit c && all_digits s'
  end.

(** The text does not begin with a digit. *)
Definition no_leading_digit (s : string) : bool :=
  match s with
  | EmptyString => true
  | String c _ => negb (Py.is_digit c)
  end.

(** The number of digits the text begins with. *)
Fixpoint leading_digits (s : string) : nat :=
  match s with
  | EmptyString => 0
  | String c s' => if Py.is_digit c then S (leading_digits s') else 0
  end.

(** The length of the longest run of consecutive digits in the text. *)
Fixpoint max_digit_run (s : string) : nat :=
  match s with
  | EmptyString => 0
  | String c s' => Nat.max (leading_digits s) (max_digit_run s')
  end.

End Text.

Module AnalyzerExamples.

(** An error text whose limit has 4301 digits. *)
Definition long_number_error : string :=
  "maximum context length is 1" +:+ Examples.zeros 4300
    +:+ " tokens, however you requested 5000 tokens".

End AnalyzerExamples.

(** ** The chat client ([OpenAILLM])

    [ask] sends the messages to the API and, when the call fails with a
    token-limit error and a compression service is configured, retries with
    the messages the service returns.  The API is external: its outcome at
    the [k]-th request of a run, for the messages sent, is whatever [client]
    says; an outcome is the dictionary [message.model_dump()] gives, or the
    text [str(e)] of the exception the [try] block raised.  [tools] and
    [response_format] are passed on unchanged by every retry and are part of
    [client].  [ask] calls itself without a bound of its own; [fuel] is the
    depth of calls the interpreter allows. *)

Module OpenAILLM.

Import Eff.

(** [c.lower()] on the code points below 256: the letters A-Z, and the
    accented capitals 192-222 other than the multiplication sign 215. *)
Definition char_lower (c : ascii) : ascii :=
  let n := nat_of_ascii c in
  if ((65 <=? n)%nat && (n <=? 90)%nat)
     || ((192 <=? n)%nat && (n <=? 222)%nat && negb (n =? 215)%nat)
  then ascii_of_nat (n + 32) else c.

(** [s.lower()] *)
Fixpoint str_lower (s : string) : string :=
  match s with
  | EmptyString => EmptyString
  | String c s' => String (char_lower c) (str_lower s')
  end.

(** [keyword in text] *)
Fixpoint contains (keyword text : string) : bool :=
  if String.prefix keyword text then true
  else
    match text with
    | EmptyString => false
    | String _ text' => contains keyword text'
    end.

Definition token_error_keywords : list string :=
  [ "context_length_exceeded";
    "token limit";
    "maximum context length";
    "request too large";
    "too many tokens" ].

Definition _is_token_limit_error (error_text : string) : bool :=
  let error_msg := str_lower error_text in
  existsb (fun keyword => contains keyword error_msg) token_error_keywords.

Inductive api_outcome : Type :=
  | Answer (message : gmap string value)
  | ApiError (text : string).

Definition ChatClient : Type :=
  nat -> list (gmap string value) -> api_outcome.

(** The state of a run: the objects and logs of the service, and the number
    of requests sent to the API. *)
Definition session : Type := world * nat.

Section WithService.
Context `{TokenAnalyzer} `{CompressionEngine} `{Clock}.
Variable has_compression_service : bool.
Variable client : ChatClient.

Fixpoint ask (fuel : nat) (messages : list nat) (st : session)
  : option (result (gmap string value) * session) :=
  match fuel with
  | O => None
  | S fuel' =>
      let '(w, requests) := st in
      match client requests (map (deref (heap w)) messages) with
      | Answer message => Some (Ok message, (w, S requests))
      | ApiError text =>
          if has_compression_service && _is_token_limit_error text then
            match CompressionService.handle_token_overflow messages text w with
            | (Ok compressed_messages, w') =>
                ask fuel' compressed_messages (w', S requests)
            | (Raise e, w') => Some (Raise e, (w', S requests))
            end
          else Some (Raise (OtherException text), (w, S requests))
      end
  end.

End WithService.

End OpenAILLM.

Module ClientExamples.

(** An API that rejects the first two requests for their length and then
    answers. *)
Definition overflows_twice : OpenAILLM.ChatClient := fun k messages =>
  if (k <? 2)%nat then
    OpenAILLM.ApiError
      "This model's maximum context length is 4097 tokens. However, your messages resulted in 5000 tokens."
  else OpenAILLM.Answer {[ "role" := VStr "assistant"; "content" := VStr "done" ]}.

End ClientExamples.

(** * Properties *)

(** ** Token analyzer *)

Section AnalyzerFacts.
Import Regex TokenErrorAnalyzer.

Lemma int_of_digits_from_nonneg (s : string) (acc : Z) :
  (0 <= acc)%Z -> (0 <= Py.int_of_digits_from acc s)%Z.
Proof.
  revert acc. induction s as [|c s IH]; intros acc Hacc; simpl; [done|].
  apply IH. destruct (Py.is_digit c) eqn:Hd; [|lia].
  unfold Py.is_digit in Hd. apply andb_prop in Hd as [Hlo _].
  apply Nat.leb_le in Hlo. unfold Py.digit_value. lia.
Qed.

Lemma int_of_digits_nonneg (s : string) : (0 <= Py.int_of_digits s)%Z.
Proof. by apply int_of_digits_from_nonneg. Qed.

Lemma first_match_some (ps : list (list atom)) (s : string) (m : list string) :
  first_match ps s = Some m ->
  exists before p after,
    ps = before ++ p :: after /\
    Forall (fun q => search q s = None) before /\
    search p s = Some m.
Proof.
  induction ps as [|p ps IH]; simpl; [done|].
  destruct (search p s) as [m'|] eqn:Hp.
  - intros [= <-]. exists [], p, ps. by repeat split.
  - intros Hm. destruct (IH Hm) as (before & q & after & -> & Hb & Hq).
    exists (p :: before), q, after. split; [done|]. split; [|done].
    by constructor.
Qed.

Lemma first_match_none (ps : list (list atom)) (s : string) :
  first_match ps s = None -> Forall (fun q => search q s = None) ps.
Proof.
  induction ps as [|p ps IH]; simpl; [by constructor|].
  destruct (search p s) eqn:Hp; [done|]. intros Hn. constructor; auto.
Qed.

Lemma int_of_str_Ok (s : string) (n : Z) :
  Py.int_of_str s = Ok n ->
  n = Py.int_of_digits s /\ String.length s <= Py.MAX_STR_DIGITS.
Proof.
  unfold Py.int_of_str.
  destruct (Py.MAX_STR_DIGITS <? String.length s)%nat eqn:E; [done|].
  apply Nat.ltb_ge in E. by intros [= <-].
Qed.

Lemma int_of_str_short (s : string) :
  String.length s <= Py.MAX_STR_DIGITS ->
  Py.int_of_str s = Ok (Py.int_of_digits s).
Proof.
  intros Hs. unfold Py.int_of_str.
  by destruct (Nat.ltb_spec Py.MAX_STR_DIGITS (String.length s)); [lia|].
Qed.

Lemma parse_error_info_nonneg (text : string) (limits : Z * Z) :
  parse_error_info text = Ok limits -> (0 <= limits.1)%Z.
Proof.
  unfold parse_error_info.
  destruct (first_match patterns text) as [m|]; [|intros [= <-]; simpl; lia].
  unfold mbind, result_bind.
  destruct (Py.int_of_str (group m 1)) as [num1|] eqn:H1; [|done].
  destruct (Py.int_of_str (group m 2)) as [num2|] eqn:H2; [|done].
  intros [= <-]. simpl.
  apply int_of_str_Ok in H1 as [-> _]. apply int_of_str_Ok in H2 as [-> _].
  pose proof (int_of_digits_nonneg (group m 1)).
  pose proof (int_of_digits_nonneg (group m 2)). lia.
Qed.

End AnalyzerFacts.

(** ** Budgets *)

Lemma round53_exact (n : Z) : (n < 2 ^ 53)%Z -> PyFloat.round53 n = n.
Proof.
  intros Hn. unfold PyFloat.round53.
  destruct (n <? 2 ^ 53)%Z eqn:E; [done|]. apply Z.ltb_ge in E. lia.
Qed.

Lemma int_mul_quarter_exact (n : Z) :
  (0 <= n < 2 ^ 53)%Z -> PyFloat.int_mul_quarter n = Ok (n / 4)%Z.
Proof.
  intros [H0 Hn]. unfold PyFloat.int_mul_quarter, PyFloat.of_int.
  rewrite (Z.abs_eq n) by lia. rewrite round53_exact by lia.
  assert (Hv : (Z.sgn n * n)%Z = n).
  { destruct (Z.eq_dec n 0%Z) as [->|Hne]; [done|].
    rewrite Z.sgn_pos by lia. lia. }
  rewrite Hv. rewrite (Z.abs_eq n) by lia.
  destruct (2 ^ 1024 <=? n)%Z eqn:E.
  - apply Z.leb_le in E. exfalso.
    assert (2 ^ 53 < 2 ^ 1024)%Z by (apply Z.pow_lt_mono_r; lia). lia.
  - simpl. f_equal. apply Z.quot_div_nonneg; lia.
Qed.

(** On the samples, which include ties and the first integers that a double
    cannot hold, the model computes what binary64 arithmetic computes. *)
Lemma int_mul_quarter_agrees_with_binary64 :
  Forall (fun n => PyFloat.int_mul_quarter n
                   = from_option Ok (Raise OverflowError)
                       (PyFloat.binary64_int_mul_quarter n))
         PyFloat.samples.
Proof. repeat constructor. Qed.

(** ** Runs of the effectful code *)

Section Runs.
Import Eff CompressionService.
Context `{TokenAnalyzer} `{CompressionEngine} `{Clock}.

Lemma compression_loop_run (segment_budget : Z) (todo : list CompressionSegment) :
  forall (round_num : nat) (summary : string) (w : world),
  exists new summary',
    compression_loop segment_budget round_num todo summary w
      = (Ok summary', with_log w (engine_log w ++ new)) /\
    map call_content new = map content todo /\
    Forall (fun c => call_max_tokens c = segment_budget) new /\
    Rounds.chain summary round_num new summary' /\
    (forall i c, new !! i = Some c ->
       call_outcome c =
         compress_content (length (engine_log w) + i)
           (call_summary c) (call_content c) (call_max_tokens c)).
Proof.
  induction todo as [|seg rest IH]; intros k s w.
  - exists [], s. simpl. rewrite app_nil_r. destruct w.
    split; [done|]. split; [done|]. split; [constructor|].
    split; [constructor|]. intros i c Hi. done.
  - pose (c := {| call_summary := s; call_content := content seg;
                  call_max_tokens := segment_budget;
                  call_outcome := compress_content (length (engine_log w)) s
                                    (content seg) segment_budget |}).
    pose (w1 := with_log w (engine_log w ++ [c])).
    destruct (IH (S k) (Rounds.round_output k c) w1)
      as (new & s' & Hrun & Hc & Hb & Hch & Hout).
    exists (c :: new), s'. split; [|split; [|split; [|split]]].
    + assert (Hstep :
        try_except (call_engine s (_format_segment_content (content seg))
                      segment_budget)
          (fun e => mret (failed_round_summary s k
                            (_format_segment_content (content seg)))) w
        = (Ok (Rounds.round_output k c), w1)).
      { unfold try_except, call_engine, _format_segment_content,
          Rounds.round_output, c, w1, with_log. simpl.
        by destruct (compress_content (length (engine_log w)) s (content seg)
                       segment_budget). }
      change (compression_loop segment_budget k (seg :: rest) s w) with
        (match try_except (call_engine s (_format_segment_content (content seg))
                      segment_budget)
          (fun e => mret (failed_round_summary s k
                            (_format_segment_content (content seg)))) w with
         | (Ok a, w') => compression_loop segment_budget (S k) rest a w'
         | (Raise e, w') => (Raise e, w')
         end).
      rewrite Hstep, Hrun. unfold with_log, w1. simpl.
      by rewrite <- app_assoc.
    + simpl. by rewrite Hc.
    + by constructor.
    + by constructor.
    + intros [|i] c' Hi; simpl in Hi.
      * injection Hi as <-. simpl. by rewrite Nat.add_0_r.
      * rewrite (Hout i c' Hi). unfold w1. simpl. rewrite length_app. simpl.
        f_equal. lia.
Qed.

Lemma compress_segments_run (segs : list CompressionSegment)
    (segment_budget : Z) (w : world) :
  exists new summary,
    compress_segments segs segment_budget w
      = (Ok (if (3 <? length segs)%nat
             then summary +:+ skipped_notice (Z.of_nat (length segs) - 3)
             else summary),
         with_log w (engine_log w ++ new)) /\
    map call_content new = map content (take 3 segs) /\
    Forall (fun c => call_max_tokens c = segment_budget) new /\
    Rounds.chain "" 0 new summary /\
    (forall i c, new !! i = Some c ->
       call_outcome c =
         compress_content (length (engine_log w) + i)
           (call_summary c) (call_content c) (call_max_tokens c)).
Proof.
  destruct (compression_loop_run segment_budget
              (take (Nat.min (length segs) MAX_COMPRESSION_ROUNDS) segs) 0 "" w)
    as (new & s' & Hrun & Hc & Hb & Hch & Hout).
  assert (Htake : take (Nat.min (length segs) MAX_COMPRESSION_ROUNDS) segs
                  = take 3 segs).
  { unfold MAX_COMPRESSION_ROUNDS.
    destruct (Nat.le_gt_cases (length segs) 3) as [Hle|Hgt].
    - rewrite Nat.min_l by done. by rewrite !take_ge.
    - by rewrite Nat.min_r by lia. }
  exists new, s'. split; [|by rewrite <- Htake].
  unfold compress_segments, mbind, M_bind. rewrite Hrun.
  unfold MAX_COMPRESSION_ROUNDS. by destruct (3 <? length segs)%nat.
Qed.

Lemma filter_cons_bool {A} (f : A -> bool) (x : A) (l : list A) :
  filter (fun m => f m) (x :: l)
  = if f x then x :: filter (fun m => f m) l else filter (fun m => f m) l.
Proof. rewrite filter_cons. by destruct (f x). Qed.

Lemma separate_loop_filter (h : list (gmap string value)) (messages : list nat) :
  forall a b c,
    separate_loop h messages (a, b, c) =
    (a ++ filter (fun m => Classify.is_system h m) messages,
     b ++ filter (fun m => Classify.is_compressible h m) messages,
     c ++ filter (fun m => Classify.is_protected h m) messages).
Proof.
  induction messages as [|msg rest IH]; intros a b c; simpl.
  - by rewrite !filter_nil, !app_nil_r.
  - rewrite !filter_cons_bool.
    unfold Classify.is_compressible at 1, Classify.is_protected at 1.
    change (Classify.is_system h msg)
      with (bool_decide (role_of (deref h msg) = VStr "system")).
    destruct (bool_decide (role_of (deref h msg) = VStr "system")); simpl.
    + rewrite IH. by rewrite <- !app_assoc.
    + destruct (_should_compress_message (deref h msg)); simpl;
        rewrite IH; by rewrite <- !app_assoc.
Qed.

Lemma has_role_system (d : gmap string value) :
  has_role "system" d = bool_decide (role_of d = VStr "system").
Proof.
  unfold has_role, role_of, PyVal.get.
  apply bool_decide_ext.
  destruct (d !! "role") as [v|]; simpl; split; congruence.
Qed.

(** What the emergency path does, by cases on the last user message. *)
Lemma emergency_fallback_run (messages : list nat) (w : world) :
  let h := heap w in
  let system_messages := filter (fun m => Classify.is_system h m) messages in
  _emergency_fallback messages w =
  match last (filter (fun m => Classify.is_user h m) messages) with
  | None =>
      (Ok (system_messages ++ [length h]), with_heap w (h ++ [placeholder_message]))
  | Some u =>
      match deref h u !! "content" with
      | Some (VStr c) =>
          (Ok (system_messages ++ [length h]),
           with_heap w
             (h ++ [<["content" := VStr ("[Emergency mode] " +:+ c)]> (deref h u)]))
      | Some _ => (Raise TypeError, with_heap w (h ++ [deref h u]))
      | None => (Raise (KeyError "content"), with_heap w (h ++ [deref h u]))
      end
  end.
Proof.
  intros h system_messages.
  assert (Hsys : filter (fun msg => has_role "system" (deref h msg)) messages
                 = system_messages).
  { apply list_filter_iff. intros m. unfold Classify.is_system.
    by rewrite has_role_system. }
  unfold _emergency_fallback, mbind, M_bind, reads. fold h. rewrite Hsys.
  change (filter (fun msg => has_role "user" (deref h msg)) messages)
    with (filter (fun m => Classify.is_user h m) messages).
  destruct (last (filter (fun m => Classify.is_user h m) messages)) as [u|].
  - unfold copy, mbind, M_bind, reads, alloc. simpl. fold h.
    assert (Hd : deref (h ++ [deref h u]) (length h) = deref h u).
    { unfold deref at 1. by rewrite list_lookup_middle. }
    rewrite Hd. unfold lift, PyVal.getitem.
    destruct (deref h u !! "content") as [v|]; [|done].
    destruct v; simpl; try done.
    unfold setitem, with_heap. simpl. do 2 f_equal.
    rewrite alter_app_r_alt by done. by rewrite Nat.sub_diag.
  - done.
Qed.

(** What the [try] block does, by cases on what the collaborators answer. *)
Lemma handle_try_run (messages : list nat) (error_info : string) (w : world) :
  let h := heap w in
  let system_messages := filter (fun m => Classify.is_system h m) messages in
  let compressible := filter (fun m => Classify.is_compressible h m) messages in
  let protected := filter (fun m => Classify.is_protected h m) messages in
  match parse_error_info error_info with
  | Raise e => handle_token_overflow_try messages error_info w = (Raise e, w)
  | Ok limits =>
      match system_budget_of limits.1 with
      | Raise e => handle_token_overflow_try messages error_info w = (Raise e, w)
      | Ok system_budget =>
          let segment_budget := ((limits.1 - system_budget) / 2)%Z in
          match compressible with
          | [] =>
              handle_token_overflow_try messages error_info w
              = (Ok (system_messages ++ protected), w)
          | _ :: _ =>
              match _split_into_segments (map (deref h) compressible)
                      segment_budget with
              | Raise e =>
                  handle_token_overflow_try messages error_info w = (Raise e, w)
              | Ok segs =>
                  exists new summary,
                    compress_segments segs segment_budget w
                      = (Ok summary, with_log w (engine_log w ++ new)) /\
                    handle_token_overflow_try messages error_info w
                      = (Ok (system_messages ++ [length h] ++ protected),
                         {| heap := h ++ [compressed_message summary
                                            (epoch_seconds (clock_reads w))];
                            engine_log := engine_log w ++ new;
                            clock_reads := S (clock_reads w) |})
              end
          end
      end
  end.
Proof.
  intros h system_messages compressible protected.
  unfold handle_token_overflow_try, mbind, M_bind, lift.
  destruct (parse_error_info error_info) as [limits|e]; [|done].
  destruct (system_budget_of limits.1) as [system_budget|e]; [|done].
  unfold _separate_messages_by_compression_policy, reads.
  rewrite separate_loop_filter. simpl.
  fold h. fold system_messages. fold compressible. fold protected.
  destruct compressible as [|c0 comp] eqn:Ecomp.
  - unfold mret, M_ret. by destruct w.
  - unfold _progressive_compression, mbind, M_bind, reads, lift. fold h.
    destruct (_split_into_segments (map (deref h) (c0 :: comp))
                ((limits.1 - system_budget) / 2)) as [segs|e]; [|done].
    destruct (compress_segments_run segs ((limits.1 - system_budget) / 2) w)
      as (new & s' & Hrun & _).
    eexists new, _. split; [exact Hrun|]. rewrite Hrun.
    unfold _build_compressed_message, mbind, M_bind, now, alloc, mret, M_ret.
    simpl. by rewrite <- app_assoc.
Qed.

End Runs.

Section Orchestrator.
Import Eff CompressionService.
Context `{TokenAnalyzer} `{CompressionEngine} `{Clock}.

Lemma progressive_compression_run (messages : list nat) (budget_tokens : Z)
    (w : world) :
  _progressive_compression messages budget_tokens w =
  match _split_into_segments (map (deref (heap w)) messages)
          (budget_tokens / 2) with
  | Ok segs => compress_segments segs (budget_tokens / 2) w
  | Raise e => (Raise e, w)
  end.
Proof.
  unfold _progressive_compression, mbind, M_bind, reads, lift.
  by destruct (_split_into_segments _ _).
Qed.

(** The three ways the [try] block can end. *)
Lemma handle_try_cases (messages : list nat) (error_info : string) (w : world) :
  let h := heap w in
  let system_messages := filter (fun m => Classify.is_system h m) messages in
  let compressible := filter (fun m => Classify.is_compressible h m) messages in
  let protected := filter (fun m => Classify.is_protected h m) messages in
  (exists e, handle_token_overflow_try messages error_info w = (Raise e, w))
  \/ (compressible = [] /\
      handle_token_overflow_try messages error_info w
      = (Ok (system_messages ++ protected), w))
  \/ (compressible <> [] /\
      exists limits system_budget segs new summary,
        parse_error_info error_info = Ok limits /\
        system_budget_of limits.1 = Ok system_budget /\
        _split_into_segments (map (deref h) compressible)
          ((limits.1 - system_budget) / 2) = Ok segs /\
        compress_segments segs ((limits.1 - system_budget) / 2) w
          = (Ok summary, with_log w (engine_log w ++ new)) /\
        _progressive_compression compressible (limits.1 - system_budget) w
          = (Ok summary, with_log w (engine_log w ++ new)) /\
        handle_token_overflow_try messages error_info w
          = (Ok (system_messages ++ [length h] ++ protected),
             {| heap := h ++ [compressed_message summary
                                (epoch_seconds (clock_reads w))];
                engine_log := engine_log w ++ new;
                clock_reads := S (clock_reads w) |})).
Proof.
  intros h system_messages compressible protected.
  pose proof (handle_try_run messages error_info w) as Hrun. simpl in Hrun.
  fold h in Hrun. fold system_messages compressible protected in Hrun.
  destruct (parse_error_info error_info) as [limits|e]; [|left; eauto].
  destruct (system_budget_of limits.1) as [system_budget|e] eqn:Hb;
    [|left; eauto].
  pose proof (progressive_compression_run compressible
                (limits.1 - system_budget) w) as Hprog. fold h in Hprog.
  destruct compressible as [|c0 comp]; [right; left; eauto|].
  destruct (_split_into_segments (map (deref h) (c0 :: comp))
              ((limits.1 - system_budget) / 2)) as [segs|e] eqn:Hsplit;
    [|left; eauto].
  destruct Hrun as (new & summary & Hcs & Htry).
  right; right. split; [done|].
  exists limits, system_budget, segs, new, summary.
  simpl in Hprog. rewrite Hprog. by repeat split.
Qed.

End Orchestrator.

Section Assembly.
Import Eff CompressionService.
Context `{TokenAnalyzer} `{CompressionEngine} `{Clock}.

Lemma handle_of_try_ok (messages : list nat) (error_info : string)
    (w w' : world) (out : list nat) :
  handle_token_overflow_try messages error_info w = (Ok out, w') ->
  handle_token_overflow messages error_info w = (Ok out, w').
Proof. intros Htry. unfold handle_token_overflow, try_except. by rewrite Htry. Qed.

Lemma handle_of_try_raise (messages : list nat) (error_info : string)
    (w w' : world) (e : exn) :
  handle_token_overflow_try messages error_info w = (Raise e, w') ->
  handle_token_overflow messages error_info w = _emergency_fallback messages w'.
Proof. intros Htry. unfold handle_token_overflow, try_except. by rewrite Htry. Qed.

(** C2.  When the [try] block of [handle_token_overflow] completes (the
    normal path), the returned list is: the system messages in their
    original order, then the synthetic message exactly when some message is
    compressible, then the protected messages in their original order.
    Every object of the input still holds what it held.  The synthetic
    message is a new object with role ["user"], the fixed header followed by
    the cumulative summary as content, the marker [True] and the integer read
    from the clock. *)
Theorem normal_path_assembly (messages : list nat) (error_info : string)
    (w w' : world) (out : list nat) :
  handle_token_overflow_try messages error_info w = (Ok out, w') ->
  let h := heap w in
  let system_messages := filter (fun m => Classify.is_system h m) messages in
  let compressible := filter (fun m => Classify.is_compressible h m) messages in
  let protected := filter (fun m => Classify.is_protected h m) messages in
  handle_token_overflow messages error_info w = (Ok out, w')
  /\ (forall l d, h !! l = Some d -> heap w' !! l = Some d)
  /\ ((compressible = [] /\ out = system_messages ++ protected /\ heap w' = h)
      \/
      (compressible <> [] /\
       exists limits system_budget summary w1 synthetic,
         parse_error_info error_info = Ok limits /\
         system_budget_of limits.1 = Ok system_budget /\
         _progressive_compression compressible (limits.1 - system_budget) w
           = (Ok summary, w1) /\
         out = system_messages ++ [length h] ++ protected /\
         heap w' = h ++ [synthetic] /\
         synthetic !! "role" = Some (VStr "user") /\
         synthetic !! "content"
           = Some (VStr ("[Compressed historical conversation content]"
                           +:+ nl +:+ nl +:+ summary)) /\
         synthetic !! "_compressed" = Some (VBool true) /\
         synthetic !! "_compression_timestamp"
           = Some (VInt (epoch_seconds (clock_reads w))))).
Proof.
  intros Htry h system_messages compressible protected.
  split; [by apply handle_of_try_ok|].
  destruct (handle_try_cases messages error_info w)
    as [[e He]|[[Hc He]|[Hc (limits & sb & segs & new & summary &
                              Hp & Hb & Hs & Hcs & Hprog & He)]]];
    rewrite He in Htry; simplify_eq.
  - split; [done|]. left. by repeat split.
  - split.
    + intros l d Hl. simpl. by apply lookup_app_l_Some.
    + right. split; [done|].
      eexists limits, sb, summary, _, _. by repeat split.
Qed.

End Assembly.

Section NeverRaises.
Import Eff CompressionService Classify.
Context `{TokenAnalyzer} `{CompressionEngine} `{Clock}.

Lemma deref_app_l (h ext : list (gmap string value)) (l : nat) :
  l < length h -> deref (h ++ ext) l = deref h l.
Proof. intros Hl. unfold deref. by rewrite lookup_app_l. Qed.

Lemma deref_fresh (h : list (gmap string value)) (d : gmap string value) :
  deref (h ++ [d]) (length h) = d.
Proof. unfold deref. by rewrite list_lookup_middle. Qed.

Lemma is_user_role (h : list (gmap string value)) (l : nat) :
  is_user h l -> role_of (deref h l) = VStr "user".
Proof.
  unfold is_user, has_role, role_of, PyVal.get. intros Hu.
  apply bool_decide_unpack in Hu. by rewrite Hu.
Qed.

Lemma is_user_not_system (h : list (gmap string value)) (l : nat) :
  is_user h l -> is_system h l = false.
Proof.
  intros Hu. unfold is_system. rewrite (is_user_role _ _ Hu).
  by apply bool_decide_eq_false_2.
Qed.

Lemma is_user_not_protected (h : list (gmap string value)) (l : nat) :
  is_user h l -> is_protected h l = false.
Proof.
  intros Hu. unfold is_protected, _should_compress_message.
  rewrite (is_user_role _ _ Hu). rewrite (is_user_not_system _ _ Hu).
  by rewrite bool_decide_eq_true_2.
Qed.

Lemma classes_cover (h : list (gmap string value)) (l : nat) :
  is_system h l || is_compressible h l || is_protected h l = true.
Proof.
  unfold is_compressible, is_protected.
  destruct (is_system h l), (_should_compress_message (deref h l)); done.
Qed.

Lemma filter_nil_bool {A} (f : A -> bool) (l : list A) :
  Forall (fun x => f x = false) l -> filter (fun x => f x) l = [].
Proof.
  induction 1 as [|x l Hx _ IH]; [done|].
  rewrite filter_cons_bool, Hx. exact IH.
Qed.

Lemma filter_ext_bool {A} (f g : A -> bool) (l : list A) :
  Forall (fun x => f x = g x) l ->
  filter (fun x => f x) l = filter (fun x => g x) l.
Proof.
  induction 1 as [|x l Hx _ IH]; [done|].
  rewrite !filter_cons_bool, Hx, IH. done.
Qed.

Lemma valid_refs_filter (h : list (gmap string value)) (f : nat -> bool)
    (messages : list nat) :
  valid_refs h messages -> valid_refs h (filter (fun m => f m) messages).
Proof.
  unfold valid_refs. rewrite !Forall_forall. intros Hv l Hl.
  apply list_elem_of_filter in Hl as [_ Hl]. by apply Hv.
Qed.

Lemma valid_refs_grow (h ext : list (gmap string value)) (messages : list nat) :
  valid_refs h messages -> valid_refs (h ++ ext) messages.
Proof.
  unfold valid_refs. intros Hv. eapply Forall_impl; [exact Hv|].
  intros l Hl. simpl in *. rewrite length_app. lia.
Qed.

(** In a store extended by one object, old valid references that were not
    user messages still are not. *)
Lemma no_users_after_growth (h : list (gmap string value))
    (d : gmap string value) (l : list nat) :
  valid_refs h l ->
  Forall (fun m => is_user h m = false) l ->
  filter (fun m => is_user (h ++ [d]) m) l = [].
Proof.
  intros Hv Hf. apply filter_nil_bool.
  unfold valid_refs in Hv. rewrite Forall_forall in Hv, Hf.
  apply Forall_forall. intros m Hm.
  unfold is_user. rewrite deref_app_l by by apply Hv.
  by apply Hf.
Qed.

Lemma system_not_user (h : list (gmap string value)) (messages : list nat) :
  Forall (fun m => is_user h m = false)
         (filter (fun m => is_system h m) messages).
Proof.
  apply Forall_forall. intros m Hm.
  apply list_elem_of_filter in Hm as [Hs _].
  destruct (is_user h m) eqn:E; [|done].
  assert (Hu : is_user h m) by by rewrite E.
  rewrite (is_user_not_system _ _ Hu) in Hs. done.
Qed.

Lemma protected_not_user (h : list (gmap string value)) (messages : list nat) :
  Forall (fun m => is_user h m = false)
         (filter (fun m => is_protected h m) messages).
Proof.
  apply Forall_forall. intros m Hm.
  apply list_elem_of_filter in Hm as [Hs _].
  destruct (is_user h m) eqn:E; [|done].
  assert (Hu : is_user h m) by by rewrite E.
  rewrite (is_user_not_protected _ _ Hu) in Hs. done.
Qed.

(** A list made of old non-user messages around one new user message with a
    string content is a valid input again. *)
Lemma fresh_user_is_last (h : list (gmap string value))
    (d : gmap string value) (c : string) (front back : list nat) :
  valid_refs h front -> valid_refs h back ->
  Forall (fun m => is_user h m = false) front ->
  Forall (fun m => is_user h m = false) back ->
  has_role "user" d ->
  d !! "content" = Some (VStr c) ->
  valid_refs (h ++ [d]) (front ++ [length h] ++ back) /\
  last_user_has_text (h ++ [d]) (front ++ [length h] ++ back).
Proof.
  intros Hvf Hvb Hnf Hnb Hrole Hc. split.
  - unfold valid_refs. rewrite !Forall_app. repeat split.
    + by apply valid_refs_grow.
    + constructor; [|constructor]. rewrite length_app. simpl. lia.
    + by apply valid_refs_grow.
  - intros u Hu. rewrite !filter_app in Hu.
    rewrite (no_users_after_growth h d front Hvf Hnf) in Hu.
    rewrite (no_users_after_growth h d back Hvb Hnb) in Hu.
    rewrite filter_cons_bool, filter_nil in Hu.
    unfold is_user in Hu at 1. rewrite deref_fresh in Hu.
    destruct (has_role "user" d); [|done].
    simpl in Hu. injection Hu as <-. exists c. by rewrite deref_fresh.
Qed.

Lemma has_role_insert_content (r : string) (d : gmap string value) (v : value) :
  has_role r (<["content" := v]> d) = has_role r d.
Proof. unfold has_role. by rewrite lookup_insert_ne. Qed.

(** With a non-empty list of valid references whose last user message has a
    string content, the call returns, and returns such a list again. *)
Lemma handle_returns (messages : list nat) (error_info : string) (w : world) :
  messages <> [] ->
  valid_refs (heap w) messages ->
  last_user_has_text (heap w) messages ->
  exists out w',
    handle_token_overflow messages error_info w = (Ok out, w') /\
    out <> [] /\
    valid_refs (heap w') out /\
    last_user_has_text (heap w') out.
Proof.
  intros Hne Hv Htext.
  pose proof (valid_refs_filter (heap w) (is_system (heap w)) messages Hv) as Hvs.
  pose proof (valid_refs_filter (heap w) (is_protected (heap w)) messages Hv) as Hvp.
  pose proof (system_not_user (heap w) messages) as Hns.
  pose proof (protected_not_user (heap w) messages) as Hnp.
  destruct (handle_try_cases messages error_info w)
    as [[e He]|[[Hc He]|[Hc (limits & sb & segs & new & summary &
                              Hp & Hb & Hs & Hcs & Hprog & He)]]].
  - rewrite (handle_of_try_raise _ _ _ _ _ He), emergency_fallback_run.
    destruct (last (filter (fun m => is_user (heap w) m) messages))
      as [u|] eqn:Hlast.
    + destruct (Htext u Hlast) as [c Hcontent]. rewrite Hcontent.
      assert (Hu : is_user (heap w) u).
      { apply last_Some_elem_of in Hlast.
        by apply list_elem_of_filter in Hlast as [Hu _]. }
      eexists _, _. split; [done|]. split.
      { by destruct (filter _ messages). }
      simpl.
      pose proof (fresh_user_is_last (heap w)
        (<["content" := VStr ("[Emergency mode] " +:+ c)]> (deref (heap w) u))
        ("[Emergency mode] " +:+ c) _ [] Hvs (Forall_nil_2 _) Hns
        (Forall_nil_2 _)) as Hfresh.
      rewrite has_role_insert_content in Hfresh.
      rewrite lookup_insert_eq in Hfresh. simpl in Hfresh.
      by apply Hfresh.
    + eexists _, _. split; [done|]. split.
      { by destruct (filter _ messages). }
      simpl.
      by apply (fresh_user_is_last (heap w) placeholder_message
                  "[Emergency mode] Please assist with current task."
                  _ [] Hvs (Forall_nil_2 _) Hns (Forall_nil_2 _)).
  - rewrite (handle_of_try_ok _ _ _ _ _ He).
    eexists _, _. split; [done|]. split; [|split].
    + destruct messages as [|m rest]; [done|].
      pose proof (classes_cover (heap w) m) as Hcov.
      rewrite !filter_cons_bool in *.
      destruct (is_system (heap w) m); [done|].
      destruct (is_compressible (heap w) m); [done|].
      simpl in Hcov. rewrite Hcov. intros E.
      by apply app_eq_nil in E as [_ ?].
    + unfold valid_refs. rewrite Forall_app. by split.
    + intros u Hu. rewrite filter_app in Hu.
      rewrite (filter_nil_bool _ _ Hns), (filter_nil_bool _ _ Hnp) in Hu. done.
  - rewrite (handle_of_try_ok _ _ _ _ _ He).
    eexists _, _. split; [done|]. split.
    { by destruct (filter _ messages). }
    simpl.
    by apply (fresh_user_is_last (heap w)
                (compressed_message summary (epoch_seconds (clock_reads w)))
                ("[Compressed historical conversation content]"
                   +:+ nl +:+ nl +:+ summary)
                _ _ Hvs Hvp Hns Hnp).
Qed.


(** C1 (amended).  For every non-empty list of messages whose last user
    message, if any, carries a string content, every error text and every
    behaviour of the analyzer, the engine and the clock (raising included),
    [handle_token_overflow] returns a list and does not raise; the list is
    not empty; and applying [handle_token_overflow] again to the returned
    list, which may carry the compression markers, returns as well. *)
Theorem handle_token_overflow_returns (messages : list nat)
    (error_info : string) (w : world) :
  messages <> [] ->
  valid_refs (heap w) messages ->
  last_user_has_text (heap w) messages ->
  exists out w',
    handle_token_overflow messages error_info w = (Ok out, w') /\
    out <> [] /\
    forall error_info',
      exists out' w'',
        handle_token_overflow out error_info' w' = (Ok out', w'') /\
        out' <> [].
Proof.
  intros Hne Hv Htext.
  destruct (handle_returns messages error_info w Hne Hv Htext)
    as (out & w' & Hrun & Hout & Hv' & Htext').
  exists out, w'. split; [done|]. split; [done|].
  intros error_info'.
  destruct (handle_returns out error_info' w' Hout Hv' Htext')
    as (out' & w'' & Hrun' & Hout' & _).
  by exists out', w''.
Qed.

(** C9.  Whatever the call does, the store it leaves is the store it found
    followed by new objects: no object of the input is changed, also when
    the call raises.  Every reference of a returned list is a reference of
    the input or denotes the one new object, which is the synthetic
    message, the placeholder, or the copy of a user message of the input
    that differs from it under ["content"] only.  On the normal path the
    protected messages end the list in their original order. *)
Theorem input_messages_never_mutated (messages : list nat)
    (error_info : string) (w : world) :
  let res := handle_token_overflow messages error_info w in
  let h := heap w in
  (exists ext, heap res.2 = h ++ ext)
  /\ (forall l d, h !! l = Some d -> heap res.2 !! l = Some d)
  /\ (forall out, res.1 = Ok out ->
        Forall (fun l =>
          l ∈ messages \/
          (l = length h /\
           exists d, heap res.2 !! l = Some d /\
             ((exists summary t, d = compressed_message summary t)
              \/ d = placeholder_message
              \/ (exists u c,
                    u ∈ messages /\ is_user h u /\
                    h !! u = heap res.2 !! u /\
                    deref h u !! "content" = Some (VStr c) /\
                    d = <["content" := VStr ("[Emergency mode] " +:+ c)]>
                          (deref h u))))) out)
  /\ (forall out w1,
        handle_token_overflow_try messages error_info w = (Ok out, w1) ->
        exists front,
          res.1 = Ok (front ++ filter (fun m => is_protected h m) messages)).
Proof.
  intros res h.
  assert (Hfilter : forall (f : nat -> bool) l,
            l ∈ filter (fun m => f m) messages -> l ∈ messages).
  { intros f l Hl. by apply list_elem_of_filter in Hl as [_ ?]. }
  assert (Hold : forall (f : nat -> bool) (P : nat -> Prop),
            Forall (fun l => l ∈ messages \/ P l)
                   (filter (fun m => f m) messages)).
  { intros f P. apply Forall_forall. intros l Hl. left. by eapply Hfilter. }
  destruct (handle_try_cases messages error_info w)
    as [[e He]|[[Hc He]|[Hc (limits & sb & segs & new & summary &
                              Hp & Hb & Hs & Hcs & Hprog & He)]]].
  - assert (Hres : res = _emergency_fallback messages w)
      by apply (handle_of_try_raise _ _ _ _ _ He).
    rewrite emergency_fallback_run in Hres. fold h in Hres.
    destruct (last (filter (fun m => is_user h m) messages)) as [u|] eqn:Hlast.
    + assert (Hu : u ∈ messages /\ is_user h u).
      { apply last_Some_elem_of in Hlast.
        apply list_elem_of_filter in Hlast as [? ?]. by split. }
      destruct (deref h u !! "content") as [v|] eqn:Hcontent.
      * destruct v as [c| | |]; rewrite Hres; simpl;
          (split; [by eexists|]); (split; [intros l d; apply lookup_app_l_Some|]);
          (split; [|intros out w1 Hout; by rewrite He in Hout]);
          intros out [= <-].
        apply Forall_app. split; [apply Hold|].
        constructor; [|constructor]. right. split; [done|].
        eexists. split; [by rewrite list_lookup_middle|].
        right; right. exists u, c. destruct Hu as [Hu1 Hu2].
        repeat split; try done.
        destruct (h !! u) eqn:E; [by rewrite (lookup_app_l_Some _ _ _ _ E)|].
        apply lookup_ge_None in E. rewrite lookup_ge_None_2; [done|].
        rewrite length_app. simpl.
        unfold deref in Hcontent. rewrite (proj2 (lookup_ge_None _ _) E) in Hcontent.
        done.
      * rewrite Hres; simpl.
        (split; [by eexists|]); (split; [intros l d; apply lookup_app_l_Some|]).
        split; [done|]. intros out w1 Hout. by rewrite He in Hout.
    + rewrite Hres; simpl.
      (split; [by eexists|]); (split; [intros l d; apply lookup_app_l_Some|]).
      split; [|intros out w1 Hout; by rewrite He in Hout].
      intros out [= <-]. apply Forall_app. split; [apply Hold|].
      constructor; [|constructor]. right. split; [done|].
      eexists. split; [by rewrite list_lookup_middle|]. right; by left.
  - assert (Hres : res = (Ok (filter (fun m => is_system h m) messages ++
                              filter (fun m => is_protected h m) messages), w))
      by apply (handle_of_try_ok _ _ _ _ _ He).
    rewrite Hres; simpl.
    split; [exists []; by rewrite app_nil_r|].
    split; [done|]. split.
    + intros out [= <-]. apply Forall_app. split; apply Hold.
    + intros out w1 Hout. by eexists.
  - assert (Hres : res = (Ok (filter (fun m => is_system h m) messages ++
                              [length h] ++
                              filter (fun m => is_protected h m) messages),
                          {| heap := h ++ [compressed_message summary
                                             (epoch_seconds (clock_reads w))];
                             engine_log := engine_log w ++ new;
                             clock_reads := S (clock_reads w) |}))
      by apply (handle_of_try_ok _ _ _ _ _ He).
    rewrite Hres; simpl.
    (split; [by eexists|]); (split; [intros l d; apply lookup_app_l_Some|]). split.
    + intros out [= <-]. apply Forall_app. split; [apply Hold|].
      constructor; [|apply Hold]. right. split; [done|].
      eexists. split; [by rewrite list_lookup_middle|]. left. by eexists _, _.
    + intros out w1 Hout.
      exists (filter (fun m => is_system h m) messages ++ [length h]).
      by rewrite <- app_assoc.
Qed.

End NeverRaises.

Section ConcreteRuns.
Import Eff CompressionService Classify Examples.

(** C1, as stated, fails on the empty conversation: the normal path returns
    the empty list. *)
Lemma empty_input_gives_empty_output :
  @handle_token_overflow token_error_analyzer engine_ok clock
    [] "garbled text with no numbers" world0
  = (Ok [], world0).
Proof. vm_compute. reflexivity. Qed.

Lemma handle_token_overflow_returns_witness :
  exists out w',
    @handle_token_overflow token_error_analyzer engine_down clock
      [0; 1; 2; 3; 4] "garbled text with no numbers" world0 = (Ok out, w') /\
    out <> [] /\
    forall error_info',
      exists out' w'',
        @handle_token_overflow token_error_analyzer engine_down clock
          out error_info' w' = (Ok out', w'') /\
        out' <> [].
Proof.
  apply (@handle_token_overflow_returns token_error_analyzer engine_down clock).
  - done.
  - unfold valid_refs. simpl. repeat constructor.
  - intros u Hu. vm_compute in Hu. injection Hu as <-.
    exists "Book the first one.". vm_compute. reflexivity.
Defined.

Lemma normal_path_assembly_witness :
  @handle_token_overflow token_error_analyzer engine_ok clock
    [0; 1; 2; 3; 4] "garbled text with no numbers" world0
  = (Ok [0; 5; 2],
     (@handle_token_overflow_try token_error_analyzer engine_ok clock
        [0; 1; 2; 3; 4] "garbled text with no numbers" world0).2).
Proof.
  apply (@normal_path_assembly token_error_analyzer engine_ok clock).
  vm_compute. reflexivity.
Defined.

(** C3.  The emergency path raises.  The numbers of this error text do not
    fit a double, so the budget computation raises [OverflowError] inside
    the [try] block; the handler runs [_emergency_fallback], which reads
    ["content"] of the copy of the last user message by subscript; that
    message has no such entry, and [KeyError] reaches the caller. *)
Theorem emergency_fallback_raises (engine : CompressionEngine) (clk : Clock) :
  @handle_token_overflow_try token_error_analyzer engine clk
    [0] huge_limit_error bare_user = (Raise OverflowError, bare_user)
  /\ @handle_token_overflow token_error_analyzer engine clk
       [0] huge_limit_error bare_user
     = (Raise (KeyError "content"),
        with_heap bare_user
          [ {[ "role" := VStr "user" ]}; {[ "role" := VStr "user" ]} ])
  /\ _format_message_content {[ "role" := VStr "user" ]} = "[user]: ".
Proof. split; [|split]; vm_compute; reflexivity. Qed.

End ConcreteRuns.

Section RoundsAndBudgets.
Import Eff CompressionService Classify.

Lemma compress_segments_calls `{CompressionEngine}
    (segs : list CompressionSegment) (segment_budget : Z) (w w' : world)
    (r : result string) :
  compress_segments segs segment_budget w = (r, w') ->
  exists calls,
    w' = with_log w (engine_log w ++ calls) /\
    Forall (fun c => call_max_tokens c = segment_budget) calls.
Proof.
  destruct (compress_segments_run segs segment_budget w)
    as (new & summary & Hrun & _ & Hb & _).
  rewrite Hrun. intros [= _ <-]. by exists new.
Qed.

(** C5.  Whatever segments the segmentation produced, the rounds call the
    engine [min (number of segments) 3] times, hence at most 3 times; the
    calls are made one after the other on the first three segments, in
    order, each receiving the summary the round before it left (the first
    one the empty summary); the result is the summary the last round left,
    followed by the notice when more than 3 segments exist.  With 5
    segments exactly 3 calls are made, none on the last two segments, and
    the result ends with the notice that 2 segments were not processed. *)
Theorem progressive_compression_round_cap `{TokenAnalyzer} `{CompressionEngine}
    (segs : list CompressionSegment) (segment_budget : Z) (w : world) :
  let res := compress_segments segs segment_budget w in
  exists calls summary,
    res.2 = with_log w (engine_log w ++ calls)
    /\ length calls = Nat.min (length segs) 3
    /\ length calls <= 3
    /\ map call_content calls = map content (take 3 segs)
    /\ Forall (fun c => call_max_tokens c = segment_budget) calls
    /\ Rounds.chain "" 0 calls summary
    /\ (forall i c, calls !! i = Some c ->
          call_outcome c =
            compress_content (length (engine_log w) + i)
              (call_summary c) (call_content c) (call_max_tokens c))
    /\ res.1 = Ok (if (3 <? length segs)%nat
                   then summary +:+ skipped_notice (Z.of_nat (length segs) - 3)
                   else summary)
    /\ (length segs = 5 ->
          length calls = 3 /\
          res.1 = Ok (summary +:+ nl +:+ nl +:+
            "[Notice: 2 segments not processed due to compression round limit]"))
    /\ (forall messages budget_tokens,
          _split_into_segments (map (deref (heap w)) messages)
            (budget_tokens / 2) = Ok segs ->
          segment_budget = (budget_tokens / 2)%Z ->
          _progressive_compression messages budget_tokens w = res).
Proof.
  intros res.
  destruct (compress_segments_run segs segment_budget w)
    as (calls & summary & Hrun & Hc & Hb & Hch & Hout).
  assert (Hlen : length calls = Nat.min (length segs) 3).
  { rewrite <- (length_map call_content), Hc, length_map, length_take. lia. }
  exists calls, summary. subst res. rewrite Hrun. simpl.
  repeat split; try done.
  - lia.
  - lia.
  - rewrite H1. simpl. done.
  - intros messages budget_tokens Hs ->.
    by rewrite progressive_compression_run, Hs.
Qed.

(** C8 (amended).  For every error text from which the analyzer infers a
    limit below [2^53], the budgets are exact: the system budget is the
    floor of a quarter of [max_tokens], and every engine call of the run
    is made with [(max_tokens - system_budget) // 2]. *)
Theorem budgets_are_exact `{CompressionEngine} `{Clock}
    (messages : list nat) (error_info : string) (w : world)
    (parsed : Z * Z) :
  TokenErrorAnalyzer.parse_error_info error_info = Ok parsed ->
  let max_tokens := parsed.1 in
  (max_tokens < 2 ^ 53)%Z ->
  let res := @handle_token_overflow token_error_analyzer _ _
               messages error_info w in
  (0 <= max_tokens)%Z
  /\ system_budget_of max_tokens = Ok (Spec.system_budget max_tokens)
  /\ (4 * Spec.system_budget max_tokens <= max_tokens
        < 4 * Spec.system_budget max_tokens + 4)%Z
  /\ Spec.compression_budget max_tokens
     = (max_tokens - Spec.system_budget max_tokens)%Z
  /\ Spec.segment_budget max_tokens
     = (Spec.compression_budget max_tokens / 2)%Z
  /\ exists calls,
       engine_log res.2 = engine_log w ++ calls /\
       Forall (fun c => call_max_tokens c = Spec.segment_budget max_tokens)
              calls.
Proof.
  intros Hparsed max_tokens Hmax res.
  pose proof (parse_error_info_nonneg error_info parsed Hparsed) as Hnn.
  fold max_tokens in Hnn.
  assert (Hsb : system_budget_of max_tokens = Ok (max_tokens / 4)%Z)
    by (apply int_mul_quarter_exact; lia).
  split; [done|]. split; [done|]. split.
  { unfold Spec.system_budget.
    pose proof (Z.div_mod max_tokens 4 ltac:(lia)).
    pose proof (Z.mod_pos_bound max_tokens 4 ltac:(lia)). lia. }
  split; [done|]. split; [done|].
  destruct (@handle_try_cases token_error_analyzer _ _ messages error_info w)
    as [[e He]|[[Hc He]|[Hc (limits & sb & segs & new & summary &
                              Hp & Hb & Hs & Hcs & Hprog & He)]]].
  - subst res.
    rewrite (@handle_of_try_raise token_error_analyzer _ _ _ _ _ _ _ He).
    rewrite emergency_fallback_run. exists [].
    split; [|constructor]. rewrite app_nil_r.
    destruct (last _); [destruct (_ !! "content") as [[| | |]|]|]; done.
  - subst res.
    rewrite (@handle_of_try_ok token_error_analyzer _ _ _ _ _ _ _ He).
    exists []. split; [by rewrite app_nil_r|constructor].
  - subst res.
    rewrite (@handle_of_try_ok token_error_analyzer _ _ _ _ _ _ _ He).
    exists new. split; [done|].
    simpl in Hp. rewrite Hparsed in Hp. injection Hp as <-.
    fold max_tokens in Hb, Hcs.
    rewrite Hsb in Hb. injection Hb as <-.
    apply compress_segments_calls in Hcs as (calls & Heq & HF).
    injection Heq as Heq. apply app_inv_head in Heq. by subst calls.
Qed.

End RoundsAndBudgets.

(** ** Strings *)

Lemma append_cons (x : ascii) (a b : string) :
  String x a +:+ b = String x (a +:+ b).
Proof. reflexivity. Qed.

Lemma append_assoc (a b c : string) : (a +:+ b) +:+ c = a +:+ (b +:+ c).
Proof. induction a as [|x a IH]; [done|]. by rewrite !append_cons, IH. Qed.

Lemma len_append (a b : string) : Py.len (a +:+ b) = (Py.len a + Py.len b)%Z.
Proof.
  unfold Py.len. induction a as [|x a IH]; [reflexivity|].
  rewrite append_cons.
  change (String.length (String x (a +:+ b))) with (S (String.length (a +:+ b))).
  change (String.length (String x a)) with (S (String.length a)).
  rewrite !Nat2Z.inj_succ, IH. lia.
Qed.

Lemma len_nonneg (a : string) : (0 <= Py.len a)%Z.
Proof. unfold Py.len. lia. Qed.

Lemma truthy_append_l (a b : string) :
  Py.truthy a = true -> Py.truthy (a +:+ b) = true.
Proof. by destruct a. Qed.

(** ** Segmentation *)

Section Segmentation.
Import CompressionService Grouping.
Context `{TokenAnalyzer}.
Variable est : string -> Z.
Hypothesis estimate_total : forall s, estimate_tokens s = Ok (est s).

Local Abbreviation fmt := _format_message_content.
Local Abbreviation sep := (nl +:+ nl).
Local Abbreviation role_label := (fun msg : gmap string value => PyVal.get msg "role" (VStr "unknown")).

Lemma fmt_truthy (msg : gmap string value) : Py.truthy (fmt msg) = true.
Proof. unfold fmt. by destruct (bool_decide _). Qed.

Lemma join_truthy (l : list (gmap string value)) :
  Py.truthy (Py.join sep (map fmt l)) = nonempty l.
Proof.
  destruct l as [|m [|m' l]]; simpl; [done| |].
  - apply fmt_truthy.
  - apply truthy_append_l, fmt_truthy.
Qed.

Lemma join_snoc (l : list string) (x : string) :
  Py.join sep (l ++ [x])
  = match l with
    | [] => x
    | _ :: _ => Py.join sep l +:+ nl +:+ nl +:+ x
    end.
Proof.
  induction l as [|a l IH]; [done|].
  destruct l as [|b l]; [done|].
  change (Py.join sep ((a :: b :: l) ++ [x]))
    with (a +:+ sep +:+ Py.join sep ((b :: l) ++ [x])).
  rewrite IH.
  change (Py.join sep (a :: b :: l)) with (a +:+ sep +:+ Py.join sep (b :: l)).
  by rewrite !append_assoc.
Qed.

Lemma tokens_snoc (g : list (gmap string value)) (msg : gmap string value) :
  tokens est (g ++ [msg]) = (tokens est g + cost est msg)%Z.
Proof.
  unfold tokens. induction g as [|m g IH]; simpl; [lia|]. rewrite IH. lia.
Qed.

Lemma tokens_app (g1 g2 : list (gmap string value)) :
  tokens est (g1 ++ g2) = (tokens est g1 + tokens est g2)%Z.
Proof.
  unfold tokens. induction g1 as [|m g IH]; simpl; [lia|]. rewrite IH. lia.
Qed.

Lemma validate_types_textual (l : list value) :
  Forall textual l -> validate_types l = Ok (omap text_of l).
Proof.
  induction 1 as [|v l [s ->] _ IH]; [done|].
  simpl. rewrite IH. done.
Qed.

Lemma new_segment_of_group (g : list (gmap string value)) :
  Forall (fun msg => textual (role_label msg)) g ->
  new_segment (Py.join sep (map fmt g)) (tokens est g) (map role_label g)
  = Ok (segment_of est g).
Proof.
  intros Hg. unfold new_segment. rewrite validate_types_textual; [done|].
  apply Forall_forall. intros v Hv. rewrite elem_of_remove_dups in Hv.
  apply list_elem_of_In, in_map_iff in Hv as (m & <- & Hm).
  rewrite Forall_forall in Hg. by apply Hg, list_elem_of_In.
Qed.

Lemma split_loop_groups (segment_budget : Z)
    (messages : list (gmap string value)) :
  forall st done cur,
    stands_for est st done cur ->
    Forall (fun msg => textual (role_label msg)) cur ->
    Forall (fun msg => textual (role_label msg)) messages ->
    exists st',
      split_loop segment_budget st messages = Ok st' /\
      stands_for est st' (group_loop est segment_budget done cur messages).1
                     (group_loop est segment_budget done cur messages).2 /\
      Forall (fun msg => textual (role_label msg))
             (group_loop est segment_budget done cur messages).2.
Proof.
  induction messages as [|msg rest IH]; intros st done cur Hst Hcur Hmsgs.
  - exists st. simpl. split; [done|]. by split.
  - apply Forall_cons in Hmsgs as [Hmsg Hrest].
    destruct Hst as (Hsegs & Hcc & Hct & Hty).
    simpl split_loop. unfold split_step. rewrite estimate_total.
    simpl group_loop. unfold mbind at 1, result_bind at 1.
    unfold mbind at 1, result_bind at 1.
    rewrite Hcc, join_truthy, Hct. fold (cost est msg).
    destruct ((segment_budget <? tokens est cur + cost est msg)%Z
              && nonempty cur) eqn:Eflush.
    + rewrite Hty, new_segment_of_group by done.
      unfold mbind at 1, result_bind at 1.
      apply IH; [|by repeat constructor|done].
      repeat split; simpl; [|unfold tokens, cost; simpl; lia].
      by rewrite Hsegs, map_app.
    + apply IH; [|by apply Forall_app; split; repeat constructor|done].
      repeat split; simpl.
      * done.
      * rewrite map_app. simpl. rewrite join_snoc.
        by destruct cur.
      * by rewrite tokens_snoc.
      * by rewrite Hty, map_app.
Qed.

Lemma split_into_segments_groups (messages : list (gmap string value))
    (segment_budget : Z) :
  Forall (fun msg => textual (role_label msg)) messages ->
  _split_into_segments messages segment_budget
  = Ok (map (segment_of est) (groups est messages segment_budget)).
Proof.
  intros Hmsgs. unfold _split_into_segments, groups, close.
  destruct (split_loop_groups segment_budget messages
              {| segments := []; current_content := "";
                 current_tokens := 0; current_types := [] |} [] [])
    as (st' & Hrun & (Hsegs & Hcc & Hct & Hty) & Hcur); [done..|].
  rewrite Hrun. unfold mbind at 1, result_bind at 1.
  rewrite Hcc, join_truthy.
  destruct (nonempty (group_loop est segment_budget [] [] messages).2).
  - rewrite Hct, Hty, new_segment_of_group by done.
    unfold mbind, result_bind. by rewrite Hsegs, map_app.
  - by rewrite Hsegs.
Qed.

End Segmentation.

Section Groups.
Import CompressionService Grouping.
Variable est : string -> Z.

Lemma close_snoc_nonempty (done : list (list (gmap string value)))
    (cur : list (gmap string value)) :
  close (done, cur) = if nonempty cur then done ++ [cur] else done.
Proof. done. Qed.

(** The groups are the input, cut into consecutive pieces. *)
Lemma group_loop_concat (segment_budget : Z)
    (messages : list (gmap string value)) :
  forall done cur,
    concat (close (group_loop est segment_budget done cur messages))
    = concat done ++ cur ++ messages.
Proof.
  induction messages as [|msg rest IH]; intros done cur; simpl.
  - rewrite close_snoc_nonempty, app_nil_r.
    destruct cur; simpl; [by rewrite app_nil_r|].
    by rewrite concat_app; simpl; rewrite app_nil_r.
  - destruct (_ && _); rewrite IH.
    + rewrite concat_app. simpl. by rewrite app_nil_r, <- app_assoc.
    + by rewrite <- app_assoc.
Qed.

Lemma group_loop_nonempty (segment_budget : Z)
    (messages : list (gmap string value)) :
  forall done cur,
    Forall (fun g => g <> []) done ->
    Forall (fun g => g <> [])
           (close (group_loop est segment_budget done cur messages)).
Proof.
  induction messages as [|msg rest IH]; intros done cur Hdone; simpl.
  - rewrite close_snoc_nonempty. destruct cur; simpl; [done|].
    apply Forall_app. split; [done|]. by repeat constructor.
  - destruct (_ && nonempty cur) eqn:E; apply IH; [|done].
    apply andb_prop in E as [_ E].
    apply Forall_app. split; [done|]. constructor; [|done].
    by destruct cur.
Qed.

Lemma fits_singleton (segment_budget : Z) (msg : gmap string value) :
  fits est segment_budget [msg].
Proof.
  unfold fits, tokens. simpl.
  destruct (Z.le_gt_cases (cost est msg) segment_budget); [left; lia|].
  right. exists msg. split; [done|lia].
Qed.

Lemma group_loop_fits (segment_budget : Z)
    (messages : list (gmap string value)) :
  forall done cur,
    Forall (fits est segment_budget) done ->
    (cur = [] \/ fits est segment_budget cur) ->
    Forall (fits est segment_budget)
           (close (group_loop est segment_budget done cur messages)).
Proof.
  induction messages as [|msg rest IH]; intros done cur Hdone Hcur; simpl.
  - rewrite close_snoc_nonempty. destruct cur; simpl; [done|].
    apply Forall_app. split; [done|]. constructor; [|done].
    by destruct Hcur.
  - destruct ((segment_budget <? tokens est cur + cost est msg)%Z)
      eqn:Eover; simpl.
    + destruct (nonempty cur) eqn:Ecur; apply IH; try done.
      * apply Forall_app. split; [done|]. constructor; [|done].
        destruct Hcur as [->|?]; done.
      * right. apply fits_singleton.
      * right. destruct cur; [apply fits_singleton|done].
    + apply IH; [done|]. right. left.
      apply Z.ltb_ge in Eover. by rewrite tokens_snoc.
Qed.

Lemma groups_concat (messages : list (gmap string value)) (segment_budget : Z) :
  concat (groups est messages segment_budget) = messages.
Proof. unfold groups. by rewrite group_loop_concat. Qed.

Lemma groups_nonempty (messages : list (gmap string value)) (segment_budget : Z) :
  Forall (fun g => g <> []) (groups est messages segment_budget).
Proof. by apply group_loop_nonempty. Qed.

Lemma groups_fit (messages : list (gmap string value)) (segment_budget : Z) :
  Forall (fits est segment_budget) (groups est messages segment_budget).
Proof. apply group_loop_fits; [done|by left]. Qed.

(** Two messages or more that exceed the budget together are cut. *)
Lemma groups_cut (messages : list (gmap string value)) (segment_budget : Z) :
  2 <= length messages ->
  (segment_budget < tokens est messages)%Z ->
  1 < length (groups est messages segment_budget).
Proof.
  intros Hlen Hover.
  pose proof (groups_concat messages segment_budget) as Hcat.
  pose proof (groups_fit messages segment_budget) as Hfit.
  destruct (groups est messages segment_budget) as [|g [|g' gs]];
    simpl in *; [subst; simpl in *; lia| |lia].
  rewrite app_nil_r in Hcat. subst g.
  apply Forall_inv in Hfit as [Hle|(msg & -> & _)]; [lia|simpl in *; lia].
Qed.

Lemma should_compress_textual (msg : gmap string value) :
  _should_compress_message msg ->
  textual (PyVal.get msg "role" (VStr "unknown")).
Proof.
  unfold _should_compress_message, role_of, PyVal.get.
  destruct (msg !! "role") as [v|]; simpl.
  - intros Hr. apply orb_prop_elim in Hr as [Hr|Hr];
      apply bool_decide_unpack in Hr; subst v; by eexists.
  - done.
Qed.

End Groups.

(** C4 (amended).  For every list of compressible messages and every
    budget, with an analyzer whose estimate is [est], segmentation returns
    segments built from consecutive, non-empty groups of the messages that
    together are the whole input in order; each segment's estimate is at
    most the budget unless the segment is one message whose own estimate
    exceeds it; and when at least two messages together exceed the budget,
    more than one segment is produced. *)
Theorem segmentation_respects_budget `{TokenAnalyzer} (est : string -> Z)
    (messages : list (gmap string value)) (segment_budget : Z) :
  (forall s, estimate_tokens s = Ok (est s)) ->
  Forall (fun msg => CompressionService._should_compress_message msg) messages ->
  exists grouped segs,
    CompressionService._split_into_segments messages segment_budget = Ok segs
    /\ segs = map (Grouping.segment_of est) grouped
    /\ concat grouped = messages
    /\ Forall (fun g => g <> []) grouped
    /\ Forall (fun g =>
         (estimated_tokens (Grouping.segment_of est g) <= segment_budget)%Z
         \/ exists msg,
              g = [msg] /\
              (segment_budget
               < est (CompressionService._format_message_content msg))%Z)
         grouped
    /\ (2 <= length messages ->
        (segment_budget < Grouping.tokens est messages)%Z ->
        1 < length segs).
Proof.
  intros Hest Hmsgs.
  eexists (Grouping.groups est messages segment_budget), _.
  split; [|split; [reflexivity|]].
  - apply split_into_segments_groups; [done|].
    eapply Forall_impl; [exact Hmsgs|]. apply should_compress_textual.
  - split; [apply groups_concat|]. split; [apply groups_nonempty|].
    split; [apply groups_fit|].
    intros Hlen Hover. rewrite length_map. by apply groups_cut.
Qed.

Section SegmentEstimates.
Import CompressionService Grouping.

Lemma estimate_tokens_div (text : string) :
  TokenErrorAnalyzer.estimate_tokens text = (Py.len text / 3)%Z.
Proof. unfold TokenErrorAnalyzer.estimate_tokens. by destruct text. Qed.

Lemma thirds_superadditive (a b : Z) : (a / 3 + b / 3 <= (a + 2 + b) / 3)%Z.
Proof.
  apply Z.div_le_lower_bound; [lia|].
  pose proof (Z.mul_div_le a 3 ltac:(lia)).
  pose proof (Z.mul_div_le b 3 ltac:(lia)). lia.
Qed.

(** The separators between the messages of a segment are not counted. *)
Lemma tokens_le_estimate_of_join (g : list (gmap string value)) :
  (tokens TokenErrorAnalyzer.estimate_tokens g
   <= TokenErrorAnalyzer.estimate_tokens
        (Py.join (nl +:+ nl) (map _format_message_content g)))%Z.
Proof.
  induction g as [|m g IH]; [done|].
  destruct g as [|m' g].
  - unfold tokens, cost. simpl. lia.
  - change (tokens TokenErrorAnalyzer.estimate_tokens (m :: m' :: g))
      with (cost TokenErrorAnalyzer.estimate_tokens m
            + tokens TokenErrorAnalyzer.estimate_tokens (m' :: g))%Z.
    change (Py.join (nl +:+ nl) (map _format_message_content (m :: m' :: g)))
      with (_format_message_content m +:+ (nl +:+ nl)
              +:+ Py.join (nl +:+ nl) (map _format_message_content (m' :: g))).
    unfold cost. rewrite !estimate_tokens_div in *. rewrite !len_append.
    change (Py.len nl) with 1%Z.
    pose proof (thirds_superadditive (Py.len (_format_message_content m))
                  (Py.len (Py.join (nl +:+ nl)
                             (map _format_message_content (m' :: g))))) as Hthirds.
    replace (Py.len (_format_message_content m) + 2
             + Py.len (Py.join (nl +:+ nl) (map _format_message_content (m' :: g))))%Z
      with (Py.len (_format_message_content m)
            + (1 + 1 + Py.len (Py.join (nl +:+ nl)
                                 (map _format_message_content (m' :: g)))))%Z
      in Hthirds by lia.
    lia.
Qed.

Lemma tokens_as_sum (est : string -> Z) (g : list (gmap string value)) :
  tokens est g = foldr Z.add 0%Z (map (fun m => est (_format_message_content m)) g).
Proof. unfold tokens, cost. induction g as [|m g IH]; simpl; [done|]. by rewrite IH. Qed.

End SegmentEstimates.

(** C10.  With the analyzer of the repository, every segment returned for a
    list of compressible messages comes from a group of consecutive
    messages of the input: its content is their formatted texts joined by
    two newlines, its [estimated_tokens] is the sum of [estimate_tokens] of
    each formatted text taken alone, and this is at most [estimate_tokens]
    of the segment's whole content, separators included. *)
Theorem segment_estimate_sums_messages
    (messages : list (gmap string value)) (segment_budget : Z) :
  Forall (fun msg => CompressionService._should_compress_message msg) messages ->
  exists grouped segs,
    @CompressionService._split_into_segments token_error_analyzer
      messages segment_budget = Ok segs
    /\ concat grouped = messages
    /\ Forall2 (fun seg g =>
         content seg
           = Py.join (nl +:+ nl)
               (map CompressionService._format_message_content g)
         /\ estimated_tokens seg
            = foldr Z.add 0%Z
                (map (fun m => TokenErrorAnalyzer.estimate_tokens
                                 (CompressionService._format_message_content m)) g)
         /\ (estimated_tokens seg
             <= TokenErrorAnalyzer.estimate_tokens (content seg))%Z)
       segs grouped.
Proof.
  intros Hmsgs.
  eexists (Grouping.groups TokenErrorAnalyzer.estimate_tokens
             messages segment_budget), _.
  split.
  - apply (@split_into_segments_groups token_error_analyzer
             TokenErrorAnalyzer.estimate_tokens); [done|].
    eapply Forall_impl; [exact Hmsgs|]. apply should_compress_textual.
  - split; [apply groups_concat|].
    apply Forall2_fmap_l, Forall_Forall2_diag, Forall_forall.
    intros g _. simpl. split; [done|]. split; [apply tokens_as_sum|].
    apply tokens_le_estimate_of_join.
Qed.

(** ** Compression engine *)

Section EngineFallback.
Import LlmCompressionEngine.

Lemma slice_to_nonneg (s : string) (n : Z) :
  (0 <= n)%Z -> Py.slice_to s n = Spec.truncate s n.
Proof.
  intros Hn. unfold Py.slice_to, Spec.truncate.
  destruct (0 <=? n)%Z eqn:E; [done|]. apply Z.leb_gt in E. lia.
Qed.

Lemma truthy_nonempty (s : string) : Py.truthy s = true <-> s <> "".
Proof. by destruct s. Qed.

Lemma fallback_compression_spec (summary content : string) (max_tokens : Z) :
  (0 <= max_tokens)%Z ->
  _fallback_compression summary content max_tokens
  = Spec.fallback summary content max_tokens.
Proof.
  intros Hmax. unfold _fallback_compression, Spec.fallback, Spec.ellipsis.
  destruct (Py.truthy summary).
  - destruct (0 <? max_tokens * 3 - Py.len summary - 100)%Z eqn:E.
    + apply Z.ltb_lt in E. by rewrite slice_to_nonneg by lia.
    + by rewrite slice_to_nonneg by lia.
  - by rewrite slice_to_nonneg by lia.
Qed.

End EngineFallback.

(** C6 (amended).  For every summary, content and non-negative
    [max_tokens]: when the model call raises, [compress_content] raises
    nothing and returns the deterministic fallback.  With a prior summary
    and a positive budget [max_tokens * 3 - len(summary) - 100] it is the
    summary, the label of the new part, the content truncated to that
    budget and the ellipsis; with a prior summary and no budget left it is
    the summary truncated to [max_tokens * 3] characters and the ellipsis;
    without a prior summary it is the content truncated to
    [max_tokens * 3] characters and the ellipsis. *)
Theorem fallback_on_model_failure (llm : LLM) (summary content : string)
    (max_tokens : Z) (e : exn) (k : nat) :
  (0 <= max_tokens)%Z ->
  llm (LlmCompressionEngine.request
         (LlmCompressionEngine._get_compression_prompt summary content))
    = Raise e ->
  let result :=
    LlmCompressionEngine.compress_content llm summary content max_tokens in
  let budget := (max_tokens * 3 - Py.len summary - 100)%Z in
  @compress_content (llm_compression_engine (fun _ => llm))
     k summary content max_tokens = Ok result
  /\ result = Spec.fallback summary content max_tokens
  /\ ((summary <> "" /\ (0 < budget)%Z /\
       result = summary +:+ nl +:+ nl +:+ "[New Content Summary] "
                  +:+ Spec.truncate content budget +:+ "...")
      \/ (summary <> "" /\ (budget <= 0)%Z /\
          result = Spec.truncate summary (max_tokens * 3) +:+ "...")
      \/ (summary = "" /\
          result = Spec.truncate content (max_tokens * 3) +:+ "...")).
Proof.
  intros Hmax Hllm result budget.
  assert (Hres : result = Spec.fallback summary content max_tokens).
  { subst result.
    unfold LlmCompressionEngine.compress_content,
      LlmCompressionEngine.compress_content_try.
    rewrite Hllm. unfold mbind, result_bind.
    by apply fallback_compression_spec. }
  split; [done|]. split; [done|].
  rewrite Hres. unfold Spec.fallback, Spec.ellipsis. fold budget.
  destruct (Py.truthy summary) eqn:Et.
  - apply truthy_nonempty in Et.
    destruct (0 <? budget)%Z eqn:E.
    + apply Z.ltb_lt in E. left. by repeat split.
    + apply Z.ltb_ge in E. right; left. by repeat split.
  - right; right. split; [|done]. by destruct summary.
Qed.

Section EngineRuns.
Import Examples.

(** C6, as stated, fails for a negative [max_tokens]: the slice drops the
    last three characters instead of keeping none. *)
Lemma fallback_negative_budget :
  LlmCompressionEngine.compress_content llm_down "" "abcdef" (-1) = "abc..."
  /\ Spec.fallback "" "abcdef" (-1) = "..."
  /\ Spec.truncate "abcdef" (-1 * 3) = "".
Proof. repeat split; vm_compute; reflexivity. Qed.

Lemma fallback_on_model_failure_witness :
  LlmCompressionEngine.compress_content llm_down
    "earlier summary" "new content" 10
  = Spec.fallback "earlier summary" "new content" 10.
Proof.
  apply (fallback_on_model_failure llm_down "earlier summary" "new content"
           10 (OtherException "timeout") 0).
  - lia.
  - reflexivity.
Defined.

(** C4, as stated, fails for one message that alone exceeds the budget. *)
Lemma single_oversized_message_one_segment :
  @CompressionService._split_into_segments token_error_analyzer
    [message_of_length 30] 5
  = Ok [ {| content := "[user]: " +:+ zeros 30;
            estimated_tokens := 12;
            message_types := ["user"] |} ]
  /\ (5 < Grouping.tokens TokenErrorAnalyzer.estimate_tokens
            [message_of_length 30])%Z.
Proof. split; vm_compute; reflexivity. Qed.

Lemma segmentation_respects_budget_witness :
  exists grouped segs,
    @CompressionService._split_into_segments token_error_analyzer
      compressible_part 10 = Ok segs
    /\ segs = map (Grouping.segment_of TokenErrorAnalyzer.estimate_tokens) grouped
    /\ concat grouped = compressible_part
    /\ Forall (fun g => g <> []) grouped
    /\ Forall (fun g =>
         (estimated_tokens
            (Grouping.segment_of TokenErrorAnalyzer.estimate_tokens g) <= 10)%Z
         \/ exists msg,
              g = [msg] /\
              (10 < TokenErrorAnalyzer.estimate_tokens
                      (CompressionService._format_message_content msg))%Z)
         grouped
    /\ (2 <= length compressible_part ->
        (10 < Grouping.tokens TokenErrorAnalyzer.estimate_tokens
                compressible_part)%Z ->
        1 < length segs).
Proof.
  apply (@segmentation_respects_budget token_error_analyzer
           TokenErrorAnalyzer.estimate_tokens).
  - reflexivity.
  - repeat constructor.
Defined.

Lemma segment_estimate_sums_messages_witness :
  exists grouped segs,
    @CompressionService._split_into_segments token_error_analyzer
      compressible_part 10 = Ok segs
    /\ concat grouped = compressible_part
    /\ Forall2 (fun seg g =>
         content seg
           = Py.join (nl +:+ nl)
               (map CompressionService._format_message_content g)
         /\ estimated_tokens seg
            = foldr Z.add 0%Z
                (map (fun m => TokenErrorAnalyzer.estimate_tokens
                                 (CompressionService._format_message_content m)) g)
         /\ (estimated_tokens seg
             <= TokenErrorAnalyzer.estimate_tokens (content seg))%Z)
       segs grouped.
Proof.
  apply segment_estimate_sums_messages. repeat constructor.
Defined.

(** C8, as stated, fails once [max_tokens] has more than 53 significant
    bits: the product is rounded before it is truncated. *)
Lemma system_budget_rounds_up :
  TokenErrorAnalyzer.parse_error_info
    "maximum context length is 36028797018963967 tokens, however you requested 36028797018963968 tokens"
  = Ok (36028797018963967, 36028797018963968)%Z
  /\ CompressionService.system_budget_of 36028797018963967
     = Ok 9007199254740992%Z
  /\ Spec.system_budget 36028797018963967 = 9007199254740991%Z
  /\ map call_max_tokens
       (engine_log
          (@CompressionService.handle_token_overflow
             token_error_analyzer engine_ok clock [0; 1; 2; 3; 4]
             "maximum context length is 36028797018963967 tokens, however you requested 36028797018963968 tokens"
             world0).2)
     = [13510798882111487%Z]
  /\ Spec.segment_budget 36028797018963967 = 13510798882111488%Z.
Proof. repeat split; vm_compute; reflexivity. Qed.

Lemma budgets_are_exact_witness :
  CompressionService.system_budget_of (4096, 5000)%Z.1
  = Ok (Spec.system_budget (4096, 5000)%Z.1).
Proof.
  apply (@budgets_are_exact engine_ok clock [0; 1; 2; 3; 4]
           "garbled text with no numbers" world0 (4096, 5000)%Z).
  - vm_compute. reflexivity.
  - vm_compute. reflexivity.
Defined.

End EngineRuns.

(** ** Token analyzer: what the patterns match *)

Section MatchingFacts.
Import Regex TokenErrorAnalyzer Text.

Lemma append_nil_l (s : string) : "" +:+ s = s.
Proof. reflexivity. Qed.

Lemma append_nil_r (s : string) : s +:+ "" = s.
Proof. induction s as [|c s IH]; [done|]. by rewrite append_cons, IH. Qed.

Lemma has_digit_tail (c : ascii) (s : string) :
  has_digit (String c s) = false -> Py.is_digit c = false /\ has_digit s = false.
Proof. simpl. by intros [-> ->]%orb_false_iff. Qed.

(** A pattern with a group [(\d+)] matches no text without a digit. *)
Lemma match_here_needs_digit (p : list atom) :
  In Digits p ->
  forall s caps, has_digit s = false -> match_here p s caps = None.
Proof.
  induction p as [|a p IH]; [done|].
  intros Hin s caps Hs. destruct a as [c| |].
  - destruct Hin as [Hin|Hin]; [done|]. simpl.
    destruct s as [|x s]; [done|].
    apply has_digit_tail in Hs as [_ Hs].
    destruct (Py.eqb_nocase c x); [by apply IH|done].
  - simpl. destruct s as [|x s]; [done|].
    apply has_digit_tail in Hs as [Hx _]. by rewrite Hx.
  - destruct Hin as [Hin|Hin]; [done|].
    simpl. induction s as [|x s IHs].
    + by rewrite IH.
    + rewrite IH by done. apply has_digit_tail in Hs as [_ Hs].
      destruct (Py.is_newline x); [done|]. by apply IHs.
Qed.

Lemma search_needs_digit (p : list atom) (s : string) :
  In Digits p -> has_digit s = false -> search p s = None.
Proof.
  intros Hin. induction s as [|x s IH]; intros Hs; simpl.
  - by rewrite match_here_needs_digit.
  - rewrite match_here_needs_digit by done.
    apply has_digit_tail in Hs as [_ Hs]. by apply IH.
Qed.

Lemma eqb_nocase_refl (c : ascii) : Py.eqb_nocase c c = true.
Proof. unfold Py.eqb_nocase. apply Ascii.eqb_refl. Qed.

Lemma match_lit (L : string) (p : list atom) (s : string) (caps : list string) :
  match_here (lit L ++ p) (L +:+ s) caps = match_here p s caps.
Proof.
  induction L as [|c L IH]; [done|].
  rewrite append_cons. simpl. by rewrite eqb_nocase_refl.
Qed.

Lemma digits_fail (q : list atom) (x : ascii) (s : string) (caps : list string) :
  Py.is_digit x = false -> match_here (Digits :: q) (String x s) caps = None.
Proof. simpl. by intros ->. Qed.

(** A run of digits followed by something else is captured whole when the
    rest of the pattern matches after it. *)
Lemma match_digits (p : list atom) (caps : list string) (a s : string)
    (r : list string) :
  all_digits a = true -> a <> "" -> no_leading_digit s = true ->
  match_here p s (caps ++ [a]) = Some r ->
  match_here (Digits :: p) (a +:+ s) caps = Some r.
Proof.
  intros Hd Hne Hs Hm. simpl.
  match goal with |- ?f _ _ = _ => set (run := f) end.
  assert (Hend : forall acc, run s acc = None).
  { intros acc. destruct s as [|c s']; [done|].
    simpl in Hs. subst run. simpl. by destruct (Py.is_digit c). }
  assert (Hgen : forall a acc,
            all_digits a = true -> a <> "" ->
            match_here p s (caps ++ [acc +:+ a]) = Some r ->
            run (a +:+ s) acc = Some r).
  { clear Hd Hne Hm a. induction a as [|x a IH]; intros acc Hd Hne Hm; [done|].
    simpl in Hd. apply andb_true_iff in Hd as [Hx Hd].
    rewrite append_cons.
    change (run (String x (a +:+ s)) acc)
      with (if Py.is_digit x
            then match run (a +:+ s) (acc +:+ String x "") with
                 | Some r' => Some r'
                 | None => match_here p (a +:+ s) (caps ++ [acc +:+ String x ""])
                 end
            else None).
    rewrite Hx. destruct a as [|y a].
    - change ("" +:+ s) with s. by rewrite Hend.
    - rewrite (IH (acc +:+ String x "")); [done|done|done|].
      by rewrite append_assoc. }
  by apply Hgen.
Qed.

Lemma lazy_eq (p : list atom) (s : string) (caps : list string) :
  match_here (LazyAny :: p) s caps =
  match match_here p s caps with
  | Some r => Some r
  | None =>
      match s with
      | String x s' =>
          if Py.is_newline x then None else match_here (LazyAny :: p) s' caps
      | EmptyString => None
      end
  end.
Proof. by destruct s. Qed.

Lemma lazy_skip (q : list atom) (mid t : string) (caps : list string) :
  has_digit mid = false -> has_newline mid = false ->
  match_here (LazyAny :: Digits :: q) (mid +:+ t) caps
  = match_here (LazyAny :: Digits :: q) t caps.
Proof.
  induction mid as [|x mid IH]; intros Hd Hn; [done|].
  apply has_digit_tail in Hd as [Hx Hd].
  simpl in Hn. apply orb_false_iff in Hn as [Hnx Hn].
  rewrite append_cons, lazy_eq, digits_fail, Hnx by done. by apply IH.
Qed.

Lemma search_eq (p : list atom) (s : string) :
  search p s =
  match match_here p s [] with
  | Some r => Some r
  | None =>
      match s with
      | String _ s' => search p s'
      | EmptyString => None
      end
  end.
Proof. by destruct s. Qed.

Lemma lit_digits_needs_digit (L : string) (q : list atom) (s : string)
    (caps r : list string) :
  match_here (lit L ++ Digits :: q) s caps = Some r ->
  exists x, String.get (String.length L) s = Some x /\ Py.is_digit x = true.
Proof.
  revert s. induction L as [|c L IH]; intros s; simpl.
  - destruct s as [|x s]; [done|].
    destruct (Py.is_digit x) eqn:Hx; [|done]. intros _. by exists x.
  - destruct s as [|y s]; [done|].
    destruct (Py.eqb_nocase c y); [|done]. apply IH.
Qed.

Lemma has_digit_app (a b : string) :
  has_digit (a +:+ b) = has_digit a || has_digit b.
Proof.
  induction a as [|c a IH]; [done|].
  rewrite append_cons. simpl. by rewrite IH, orb_assoc.
Qed.

Lemma string_length_app (a b : string) :
  String.length (a +:+ b) = String.length a + String.length b.
Proof.
  induction a as [|c a IH]; [done|].
  rewrite append_cons. simpl. by rewrite IH.
Qed.

Lemma get_in_no_digit (u v : string) (n : nat) (x : ascii) :
  has_digit u = false -> n < String.length u ->
  String.get n (u +:+ v) = Some x -> Py.is_digit x = false.
Proof.
  revert n. induction u as [|c u IH]; intros n Hd Hn; simpl in Hn; [lia|].
  apply has_digit_tail in Hd as [Hc Hd]. rewrite append_cons.
  destruct n as [|n]; simpl.
  - by intros [= <-].
  - apply IH; [done|lia].
Qed.

(** The search does not stop inside a prefix without digits. *)
Lemma search_skip (L : string) (q : list atom) (pre t : string) :
  has_digit pre = false -> has_digit L = false ->
  search (lit L ++ Digits :: q) (pre +:+ L +:+ t)
  = search (lit L ++ Digits :: q) (L +:+ t).
Proof.
  intros Hpre HL. induction pre as [|x pre IH]; [done|].
  pose proof Hpre as Hpre'. apply has_digit_tail in Hpre' as [Hx Hd].
  rewrite append_cons, search_eq.
  destruct (match_here _ (String x (pre +:+ L +:+ t)) []) as [r|] eqn:Hm.
  - exfalso. apply lit_digits_needs_digit in Hm as (y & Hget & Hy).
    rewrite <- append_cons, <- append_assoc in Hget.
    apply get_in_no_digit in Hget; [congruence| |].
    + by rewrite has_digit_app, Hpre, HL.
    + rewrite string_length_app. simpl. lia.
  - by apply IH.
Qed.

Lemma first_match_head (p : list atom) (ps : list (list atom)) (s : string)
    (m : list string) :
  search p s = Some m -> first_match (p :: ps) s = Some m.
Proof. simpl. by intros ->. Qed.

Lemma openai_template_match (pre a mid b post : string) :
  has_digit pre = false ->
  all_digits a = true -> a <> "" ->
  has_digit mid = false -> has_newline mid = false ->
  all_digits b = true -> b <> "" ->
  first_match patterns
    (pre +:+ "maximum context length is " +:+ a +:+ " tokens" +:+ mid
       +:+ b +:+ " tokens" +:+ post)
  = Some [a; b].
Proof.
  intros Hpre Ha Hane Hmid Hnl Hb Hbne.
  unfold patterns. apply first_match_head.
  change (search
            (lit "maximum context length is "
               ++ Digits :: (lit " tokens"
               ++ LazyAny :: Digits :: (lit " tokens" ++ [])))
            (pre +:+ "maximum context length is " +:+ a +:+ " tokens" +:+ mid
               +:+ b +:+ " tokens" +:+ post) = Some [a; b]).
  rewrite search_skip by done.
  rewrite search_eq, match_lit.
  rewrite (match_digits _ _ _ _ [a; b]); [done|done|done|done|].
  rewrite match_lit, lazy_skip, lazy_eq by done.
  rewrite (match_digits _ _ _ _ [a; b]); [done|done|done|done|].
  by rewrite match_lit.
Qed.

(** Every captured group is a run of digits of the text, so it is no longer
    than the longest such run. *)
Lemma leading_le_max (s : string) : leading_digits s <= max_digit_run s.
Proof. destruct s; simpl; lia. Qed.

Lemma max_digit_run_tail (c : ascii) (s : string) :
  max_digit_run s <= max_digit_run (String c s).
Proof. simpl. lia. Qed.

Lemma short_groups_tail (c : ascii) (s : string) (l : list string) :
  Forall (fun g => String.length g <= max_digit_run s) l ->
  Forall (fun g => String.length g <= max_digit_run (String c s)) l.
Proof.
  intros Hl. eapply Forall_impl; [exact Hl|]. intros g Hg.
  pose proof (max_digit_run_tail c s). simpl in *. lia.
Qed.

Lemma match_here_groups (p : list atom) :
  forall s caps r,
    match_here p s caps = Some r ->
    exists new,
      r = caps ++ new /\
      Forall (fun g => String.length g <= max_digit_run s) new.
Proof.
  induction p as [|a p IH]; intros s caps r.
  - simpl. intros [= <-]. exists []. by rewrite app_nil_r.
  - destruct a as [c| |].
    + simpl. destruct s as [|x s]; [done|].
      destruct (Py.eqb_nocase c x); [|done]. intros Hm.
      apply IH in Hm as (new & -> & Hb). exists new.
      split; [done|]. by apply short_groups_tail.
    + simpl.
      match goal with |- ?f _ _ = _ -> _ => set (run := f) end.
      assert (Hrun : forall s acc r,
                run s acc = Some r ->
                exists g new,
                  r = caps ++ (acc +:+ g) :: new /\
                  String.length g <= leading_digits s /\
                  Forall (fun g => String.length g <= max_digit_run s) new).
      { clear s r. induction s as [|x s IHs]; intros acc r.
        - change (run "" acc) with (@None (list string)). done.
        - change (run (String x s) acc)
            with (if Py.is_digit x
                  then match run s (acc +:+ String x "") with
                       | Some r' => Some r'
                       | None =>
                           match_here p s (caps ++ [acc +:+ String x ""])
                       end
                  else None).
          destruct (Py.is_digit x) eqn:Hx; [|done].
          destruct (run s (acc +:+ String x "")) as [r'|] eqn:Hr.
          + intros [= <-].
            apply IHs in Hr as (g & new & -> & Hg & Hb).
            exists (String x g), new. split; [by rewrite append_assoc|].
            split; [simpl; rewrite Hx; lia|]. by apply short_groups_tail.
          + intros Hm. apply IH in Hm as (new & -> & Hb).
            exists (String x ""), new. split; [by rewrite <- app_assoc|].
            split; [simpl; rewrite Hx; lia|]. by apply short_groups_tail. }
      intros Hm. apply Hrun in Hm as (g & new & -> & Hg & Hb).
      exists (g :: new). split; [done|].
      constructor; [|done]. pose proof (leading_le_max s). lia.
    + revert r. induction s as [|x s IHs]; intros r; rewrite lazy_eq.
      * destruct (match_here p "" caps) as [r'|] eqn:Hm; [|done].
        intros [= <-]. by apply IH.
      * destruct (match_here p (String x s) caps) as [r'|] eqn:Hm.
        { intros [= <-]. by apply IH. }
        destruct (Py.is_newline x); [done|]. intros Hs.
        apply IHs in Hs as (new & -> & Hb). exists new.
        split; [done|]. by apply short_groups_tail.
Qed.

Lemma search_groups (p : list atom) (s : string) (r : list string) :
  search p s = Some r ->
  Forall (fun g => String.length g <= max_digit_run s) r.
Proof.
  revert r. induction s as [|x s IH]; intros r; rewrite search_eq.
  - destruct (match_here p "" []) as [r'|] eqn:Hm; [|done].
    intros [= <-]. by apply match_here_groups in Hm as (new & -> & Hb).
  - destruct (match_here p (String x s) []) as [r'|] eqn:Hm.
    + intros [= <-]. by apply match_here_groups in Hm as (new & -> & Hb).
    + intros Hs. by apply short_groups_tail, IH.
Qed.

Lemma group_short (m : list string) (i n : nat) :
  Forall (fun g => String.length g <= n) m ->
  String.length (group m i) <= n.
Proof.
  intros Hm. unfold group.
  destruct (nth_in_or_default (i - 1) m "") as [Hin| ->]; [|simpl; lia].
  rewrite Forall_forall in Hm. by apply Hm, list_elem_of_In.
Qed.

(** With no digit run beyond the limit of [int], every conversion
    succeeds. *)
Lemma parse_error_info_of_match (text : string) :
  max_digit_run text <= Py.MAX_STR_DIGITS ->
  parse_error_info text =
  Ok match first_match patterns text with
     | Some m =>
         (Z.min (Py.int_of_digits (group m 1)) (Py.int_of_digits (group m 2)),
          Z.max (Py.int_of_digits (group m 1)) (Py.int_of_digits (group m 2)))
     | None => (4096, 5000)%Z
     end.
Proof.
  intros Hrun. unfold parse_error_info.
  destruct (first_match patterns text) as [m|] eqn:Hm; [|done].
  destruct (first_match_some _ _ _ Hm) as (before & p & after & _ & _ & Hp).
  apply search_groups in Hp.
  assert (Hshort : Forall (fun g => String.length g <= Py.MAX_STR_DIGITS) m).
  { eapply Forall_impl; [exact Hp|]. intros g Hg. simpl in *. lia. }
  by rewrite !int_of_str_short by by apply group_short.
Qed.

End MatchingFacts.

(** ** Decimal numerals *)

Section Numerals.
Import Text.

Lemma int_of_digits_from_uint_acc (d : Decimal.uint) (acc : positive) :
  Py.int_of_digits_from (Z.pos acc) (NilEmpty.string_of_uint d)
  = Z.pos (Pos.of_uint_acc d acc).
Proof.
  revert acc. induction d; intros acc; simpl; [done|..];
    rewrite <- IHd; f_equal;
    try (match goal with
         | |- context [Py.digit_value ?c] =>
             let v := eval vm_compute in (Py.digit_value c) in
             change (Py.digit_value c) with v
         end; lia).
Qed.

Lemma int_of_digits_from_uint (d : Decimal.uint) :
  Py.int_of_digits_from 0 (NilEmpty.string_of_uint d) = Z.of_N (Pos.of_uint d).
Proof.
  induction d; simpl; [done|exact IHd|..];
    (etrans; [|apply int_of_digits_from_uint_acc]); f_equal.
Qed.

Lemma all_digits_uint (d : Decimal.uint) :
  all_digits (NilEmpty.string_of_uint d) = true.
Proof. induction d; simpl; done. Qed.

Lemma nilzero_string_of_uint (d : Decimal.uint) :
  Py.int_of_digits_from 0 (NilZero.string_of_uint d) = Z.of_N (Pos.of_uint d)
  /\ all_digits (NilZero.string_of_uint d) = true
  /\ NilZero.string_of_uint d <> "".
Proof.
  destruct d; [by repeat split|..];
    (split; [exact (int_of_digits_from_uint _)|];
     split; [exact (all_digits_uint _)|done]).
Qed.

(** [int(str(n)) = n], and [str(n)] is a non-empty string of digits. *)
Lemma str_of_int_nonneg (n : Z) :
  (0 <= n)%Z ->
  Py.int_of_digits (Py.str_of_int n) = n
  /\ all_digits (Py.str_of_int n) = true
  /\ Py.str_of_int n <> "".
Proof.
  intros Hn. unfold Py.str_of_int, Py.int_of_digits.
  destruct n as [|p|p]; [by repeat split| |lia].
  pose proof (DecimalPos.Unsigned.of_to p) as Hof.
  destruct (nilzero_string_of_uint (Pos.to_uint p)) as (Hv & Hd & Hne).
  rewrite Hof in Hv. by repeat split.
Qed.

End Numerals.

(** C7 (amended).  For every error text in which no run of digits is longer
    than the 4300 digits [int] converts, [parse_error_info] returns a pair.
    When some pattern matches, the pair is built from the two numbers
    captured by the first pattern (in declaration order) that matches:
    [max_tokens] is the smaller and [current_tokens] the larger, whichever
    came first in the text; when no pattern matches the pair is the
    default (4096, 5000).  What matches is pinned down: a text that has,
    after words without digits, [maximum context length is <limit> tokens],
    then words without digits on the same line, then [<requested> tokens],
    gives the smaller and the larger of [limit] and [requested]; a text
    without any digit gives the default.  The two sample texts of the
    design document give (4096, 5000); further samples exercise each of the
    four patterns, both orders of the numbers and the letter case. *)
Theorem parse_error_info_min_max (text : string) :
  Text.max_digit_run text <= Py.MAX_STR_DIGITS ->
  exists r,
    TokenErrorAnalyzer.parse_error_info text = Ok r
    /\ (r.1 <= r.2)%Z
    /\ ((exists before p after m,
           TokenErrorAnalyzer.patterns = before ++ p :: after /\
           Forall (fun q => Regex.search q text = None) before /\
           Regex.search p text = Some m /\
           let num1 := Py.int_of_digits (Regex.group m 1) in
           let num2 := Py.int_of_digits (Regex.group m 2) in
           r = (Z.min num1 num2, Z.max num1 num2))
        \/
        (Forall (fun q => Regex.search q text = None)
                TokenErrorAnalyzer.patterns /\
         r = (4096, 5000)%Z))
    /\ (forall pre mid post limit requested,
          (0 <= limit)%Z -> (0 <= requested)%Z ->
          Text.has_digit pre = false ->
          Text.has_digit mid = false -> Text.has_newline mid = false ->
          text = pre +:+ "maximum context length is " +:+ Py.str_of_int limit
                   +:+ " tokens" +:+ mid +:+ Py.str_of_int requested
                   +:+ " tokens" +:+ post ->
          r = (Z.min limit requested, Z.max limit requested))
    /\ (Text.has_digit text = false -> r = (4096, 5000)%Z)
    /\ TokenErrorAnalyzer.parse_error_info
         "maximum context length is 4096 tokens, however you requested 5000 tokens"
       = Ok (4096, 5000)%Z
    /\ TokenErrorAnalyzer.parse_error_info "garbled text with no numbers"
       = Ok (4096, 5000)%Z
    /\ TokenErrorAnalyzer.parse_error_info
         "maximum context length is 9000 tokens, however you requested 8192 tokens"
       = Ok (8192, 9000)%Z
    /\ TokenErrorAnalyzer.parse_error_info
         "token limit 100 exceeded, current request: 200"
       = Ok (100, 200)%Z
    /\ TokenErrorAnalyzer.parse_error_info
         "context length exceeded: 7000 > 6000"
       = Ok (6000, 7000)%Z
    /\ TokenErrorAnalyzer.parse_error_info
         "Request too large: 300 tokens, limit 250"
       = Ok (250, 300)%Z
    /\ TokenErrorAnalyzer.parse_error_info
         "MAXIMUM CONTEXT LENGTH IS 10 TOKENS, HOWEVER YOU REQUESTED 20 TOKENS"
       = Ok (10, 20)%Z.
Proof.
  intros Hrun. rewrite (parse_error_info_of_match text Hrun).
  eexists. split; [reflexivity|].
  destruct (TokenErrorAnalyzer.first_match TokenErrorAnalyzer.patterns text)
    as [m|] eqn:Hm.
  - split; [simpl; lia|]. split.
    { left. destruct (first_match_some _ _ _ Hm)
        as (before & p & after & E & Hb & Hp).
      exists before, p, after, m. by repeat split. }
    split.
    { intros pre mid post limit requested Hl Hr Hpre Hmid Hnl ->.
      destruct (str_of_int_nonneg limit Hl) as (Hlv & Hld & Hlne).
      destruct (str_of_int_nonneg requested Hr) as (Hrv & Hrd & Hrne).
      rewrite openai_template_match in Hm by done. injection Hm as <-.
      unfold Regex.group. simpl. by rewrite Hlv, Hrv. }
    split.
    { intros Hnone. exfalso.
      destruct (first_match_some _ _ _ Hm)
        as (before & p & after & E & _ & Hp).
      assert (Hin : In p TokenErrorAnalyzer.patterns).
      { rewrite E. apply in_or_app. right. by left. }
      assert (Hd : In Regex.Digits p).
      { unfold TokenErrorAnalyzer.patterns in Hin. simpl in Hin.
        destruct Hin as [<-|[<-|[<-|[<-|[]]]]]; simpl; tauto. }
      by rewrite search_needs_digit in Hp. }
    repeat (split; [vm_compute; reflexivity|]). vm_compute. reflexivity.
  - split; [simpl; lia|]. split.
    { right. split; [by apply first_match_none|done]. }
    split.
    { intros pre mid post limit requested Hl Hr Hpre Hmid Hnl ->.
      destruct (str_of_int_nonneg limit Hl) as (Hlv & Hld & Hlne).
      destruct (str_of_int_nonneg requested Hr) as (Hrv & Hrd & Hrne).
      by rewrite openai_template_match in Hm. }
    split; [done|].
    repeat (split; [vm_compute; reflexivity|]). vm_compute. reflexivity.
Qed.

Section AnalyzerRuns.
Import AnalyzerExamples.

(** C7, as stated, fails on a text with a number of 4301 digits: the
    conversion of the captured digits raises, and no pair is returned. *)
Lemma long_number_raises :
  TokenErrorAnalyzer.parse_error_info long_number_error = Raise ValueError
  /\ String.length long_number_error = 4369
  /\ ~ Text.max_digit_run long_number_error <= Py.MAX_STR_DIGITS.
Proof.
  assert (Hraise : TokenErrorAnalyzer.parse_error_info long_number_error
                   = Raise ValueError) by (vm_compute; reflexivity).
  split; [exact Hraise|]. split; [vm_compute; reflexivity|].
  intros Hshort. apply parse_error_info_of_match in Hshort.
  rewrite Hraise in Hshort. discriminate Hshort.
Qed.

Lemma parse_error_info_min_max_witness :
  exists r,
    TokenErrorAnalyzer.parse_error_info
      "token limit 100 exceeded, current request: 200" = Ok r
    /\ (r.1 <= r.2)%Z.
Proof.
  destruct (parse_error_info_min_max
              "token limit 100 exceeded, current request: 200")
    as (r & Hr & Hle & _).
  - apply Nat.leb_le. vm_compute. reflexivity.
  - exists r. split; assumption.
Defined.

End AnalyzerRuns.

(** * Further properties of the code *)

(** ** Token estimate and engine fallback *)

Section MoreEngineFacts.
Import LlmCompressionEngine.

Lemma length_substring_0 (n : nat) (s : string) :
  String.length (String.substring 0 n s) = Nat.min n (String.length s).
Proof.
  revert n. induction s as [|c s IH]; intros [|n]; simpl; try done.
  by rewrite IH.
Qed.

Lemma substring_0_all (n : nat) (s : string) :
  (String.length s <= n)%nat -> String.substring 0 n s = s.
Proof.
  revert n. induction s as [|c s IH]; intros [|n] Hn; simpl in *; try done.
  - lia.
  - rewrite IH by lia. done.
Qed.

Lemma len_truncate (s : string) (n : Z) :
  (0 <= n)%Z -> Py.len (Spec.truncate s n) = Z.min n (Py.len s).
Proof.
  intros Hn. unfold Spec.truncate, Py.len. rewrite length_substring_0. lia.
Qed.

End MoreEngineFacts.

(** X1.  [estimate_tokens] is 0 on the empty text, is the floor of a third
    of the length (so never negative), and does not decrease when the text
    gets longer. *)
Theorem estimate_tokens_monotone (a b : string) :
  TokenErrorAnalyzer.estimate_tokens "" = 0%Z
  /\ (3 * TokenErrorAnalyzer.estimate_tokens a <= Py.len a
        < 3 * TokenErrorAnalyzer.estimate_tokens a + 3)%Z
  /\ (0 <= TokenErrorAnalyzer.estimate_tokens a)%Z
  /\ ((Py.len a <= Py.len b)%Z ->
      (TokenErrorAnalyzer.estimate_tokens a
       <= TokenErrorAnalyzer.estimate_tokens b)%Z)
  /\ (TokenErrorAnalyzer.estimate_tokens a
      <= TokenErrorAnalyzer.estimate_tokens (a +:+ b))%Z.
Proof.
  rewrite !estimate_tokens_div.
  pose proof (len_nonneg a) as Ha. pose proof (len_nonneg b) as Hb.
  pose proof (Z.div_mod (Py.len a) 3 ltac:(lia)) as Hdiv.
  pose proof (Z.mod_pos_bound (Py.len a) 3 ltac:(lia)) as Hmod.
  split; [done|]. split; [lia|]. split; [apply Z.div_pos; lia|]. split.
  - intros Hle. apply Z.div_le_mono; lia.
  - rewrite len_append. apply Z.div_le_mono; lia.
Qed.

(** X2.  For a non-negative [max_tokens] the text [_fallback_compression]
    returns has at most [max_tokens * 3 + 3] characters, whatever the
    lengths of the summary and the content. *)
Theorem fallback_length_bounded (summary content : string) (max_tokens : Z) :
  (0 <= max_tokens)%Z ->
  (Py.len (LlmCompressionEngine._fallback_compression summary content max_tokens)
   <= max_tokens * 3 + 3)%Z.
Proof.
  intros Hmax. rewrite fallback_compression_spec by done.
  unfold Spec.fallback, Spec.ellipsis.
  pose proof (len_nonneg summary) as Hs. pose proof (len_nonneg content) as Hc.
  destruct (Py.truthy summary).
  - destruct (0 <? max_tokens * 3 - Py.len summary - 100)%Z eqn:E.
    + apply Z.ltb_lt in E. rewrite !len_append, len_truncate by lia.
      change (Py.len nl) with 1%Z.
      change (Py.len "[New Content Summary] ") with 22%Z.
      change (Py.len "...") with 3%Z. lia.
    + rewrite len_append, len_truncate by lia.
      change (Py.len "...") with 3%Z. lia.
  - rewrite len_append, len_truncate by lia.
    change (Py.len "...") with 3%Z. lia.
Qed.

(** X3.  The ellipsis does not mean that something was cut: when the
    content fits the budget it is kept whole and the marker is appended all
    the same, without a prior summary and with one. *)
Theorem fallback_appends_ellipsis_to_whole_content
    (summary content : string) (max_tokens : Z) :
  (Py.len content <= max_tokens * 3 - Py.len summary - 100)%Z ->
  (0 < max_tokens * 3 - Py.len summary - 100)%Z ->
  LlmCompressionEngine._fallback_compression "" content max_tokens
    = content +:+ "..."
  /\ (summary <> "" ->
      LlmCompressionEngine._fallback_compression summary content max_tokens
        = summary +:+ nl +:+ nl +:+ "[New Content Summary] "
            +:+ content +:+ "...").
Proof.
  intros Hfit Hpos.
  pose proof (len_nonneg summary) as Hs. pose proof (len_nonneg content) as Hc.
  assert (Hwhole : forall n, (Py.len content <= n)%Z ->
                             Py.slice_to content n = content).
  { intros n Hn. rewrite slice_to_nonneg by lia. unfold Spec.truncate.
    apply substring_0_all. unfold Py.len in Hn. lia. }
  split.
  - unfold LlmCompressionEngine._fallback_compression. simpl.
    rewrite Hwhole by lia. done.
  - intros Hne. apply truthy_nonempty in Hne.
    unfold LlmCompressionEngine._fallback_compression. rewrite Hne.
    destruct (0 <? max_tokens * 3 - Py.len summary - 100)%Z eqn:E;
      [|apply Z.ltb_ge in E; lia].
    by rewrite Hwhole.
Qed.

(** X4.  When the model call returns, [compress_content] returns the
    response's content unchanged if it is a string, whatever [max_tokens]
    is (the budget is not enforced on the model's answer); a response
    without a content entry gives the empty summary; a content that is not
    a string makes the log line raise inside the [try] block and gives the
    truncation fallback. *)
Theorem compress_content_on_response (llm : LLM) (summary content : string)
    (max_tokens : Z) (response : gmap string value) :
  llm (LlmCompressionEngine.request
         (LlmCompressionEngine._get_compression_prompt summary content))
    = Ok response ->
  LlmCompressionEngine.compress_content llm summary content max_tokens
  = match response !! "content" with
    | Some (VStr text) => text
    | None => ""
    | Some _ =>
        LlmCompressionEngine._fallback_compression summary content max_tokens
    end.
Proof.
  intros Hllm.
  unfold LlmCompressionEngine.compress_content,
    LlmCompressionEngine.compress_content_try.
  rewrite Hllm. unfold mbind, result_bind, PyVal.get.
  destruct (response !! "content") as [[text| | |]|]; done.
Qed.

(** ** Classification of messages *)

Section MoreClassification.
Import Eff CompressionService CompressionServiceRest Classify.

Lemma three_classes_permutation (h : list (gmap string value))
    (messages : list nat) :
  filter (fun m => is_system h m) messages
    ++ filter (fun m => is_compressible h m) messages
    ++ filter (fun m => is_protected h m) messages
  ≡ₚ messages.
Proof.
  induction messages as [|msg rest IH]; [done|].
  rewrite !filter_cons_bool.
  unfold is_compressible at 1, is_protected at 1.
  destruct (is_system h msg); simpl.
  - by rewrite IH.
  - destruct (_should_compress_message (deref h msg)); simpl.
    + by rewrite <- Permutation_middle, IH.
    + rewrite app_assoc, <- Permutation_middle, <- app_assoc. by rewrite IH.
Qed.

Lemma exactly_one_class (h : list (gmap string value)) (msg : nat) :
  (is_system h msg && negb (is_compressible h msg) && negb (is_protected h msg))
  || (negb (is_system h msg) && is_compressible h msg && negb (is_protected h msg))
  || (negb (is_system h msg) && negb (is_compressible h msg) && is_protected h msg)
  = true.
Proof.
  unfold is_compressible, is_protected.
  by destruct (is_system h msg), (_should_compress_message (deref h msg)).
Qed.

Lemma separate_system_loop_filter (h : list (gmap string value))
    (messages : list nat) :
  forall a b,
    separate_system_loop h messages (a, b) =
    (a ++ filter (fun m => is_system h m) messages,
     b ++ filter (fun m => negb (is_system h m)) messages).
Proof.
  induction messages as [|msg rest IH]; intros a b; simpl.
  - by rewrite !filter_nil, !app_nil_r.
  - rewrite !filter_cons_bool, has_role_system.
    change (is_system h msg)
      with (bool_decide (role_of (deref h msg) = VStr "system")).
    destruct (bool_decide (role_of (deref h msg) = VStr "system")); simpl;
      rewrite IH; by rewrite <- !app_assoc.
Qed.

End MoreClassification.

(** X5.  [_separate_messages_by_compression_policy] sorts every message
    into exactly one of its three lists: together the lists are a
    rearrangement of the input, each keeps the input's order, their lengths
    add up to the input's, and the store is only read. *)
Theorem classification_is_a_partition (messages : list nat) (w : world) :
  let res := CompressionService._separate_messages_by_compression_policy messages w in
  let h := heap w in
  exists system_messages compressible protected,
    res = (Ok (system_messages, compressible, protected), w)
    /\ system_messages ++ compressible ++ protected ≡ₚ messages
    /\ length system_messages + length compressible + length protected
       = length messages
    /\ system_messages `sublist_of` messages
    /\ compressible `sublist_of` messages
    /\ protected `sublist_of` messages
    /\ Forall (fun m => Classify.is_system h m) system_messages
    /\ Forall (fun m => CompressionService._should_compress_message
                          (Eff.deref h m)) compressible
    /\ Forall (fun m => Classify.is_protected h m) protected
    /\ (forall m, Classify.is_protected h m <->
                  CompressionService.role_of (Eff.deref h m) <> VStr "system" /\
                  CompressionService.role_of (Eff.deref h m) <> VStr "user" /\
                  CompressionService.role_of (Eff.deref h m) <> VStr "tool").
Proof.
  intros res h. subst res.
  unfold CompressionService._separate_messages_by_compression_policy, Eff.reads.
  rewrite separate_loop_filter. simpl. fold h.
  eexists _, _, _. split; [reflexivity|].
  pose proof (three_classes_permutation h messages) as Hperm.
  split; [done|]. split.
  { apply Permutation_length in Hperm. rewrite !length_app in Hperm. lia. }
  split; [apply sublist_filter|]. split; [apply sublist_filter|].
  split; [apply sublist_filter|].
  split; [|split; [|split]].
  - apply Forall_forall. intros m Hm. by apply list_elem_of_filter in Hm as [? _].
  - apply Forall_forall. intros m Hm. apply list_elem_of_filter in Hm as [Hm _].
    unfold Classify.is_compressible in Hm. by apply andb_prop_elim in Hm as [_ ?].
  - apply Forall_forall. intros m Hm. by apply list_elem_of_filter in Hm as [? _].
  - intros m. unfold Classify.is_protected, Classify.is_system,
      CompressionService._should_compress_message.
    destruct (CompressionService.role_of (Eff.deref h m)) as [r| | |] eqn:Er.
    + rewrite !bool_decide_decide.
      destruct (decide (VStr r = VStr "system")) as [Es|Es],
               (decide (VStr r = VStr "user")) as [Eu|Eu],
               (decide (VStr r = VStr "tool")) as [Et|Et]; simpl; intuition.
    + simpl. split; [done|]. by intros _.
    + simpl. split; [done|]. by intros _.
    + simpl. split; [done|]. by intros _.
Qed.

(** X6.  The deprecated [_separate_system_messages] agrees with the policy
    separation: its system list is the policy's system list, and its other
    list holds, in input order, exactly the messages the policy calls
    compressible or protected. *)
Theorem deprecated_separation_agrees (messages : list nat) (w : world) :
  let h := heap w in
  exists system_messages other_messages,
    CompressionServiceRest._separate_system_messages messages w
      = (Ok (system_messages, other_messages), w)
    /\ system_messages = filter (fun m => Classify.is_system h m) messages
    /\ other_messages `sublist_of` messages
    /\ system_messages ++ other_messages ≡ₚ messages
    /\ (forall m, m ∈ other_messages <->
          m ∈ filter (fun m => Classify.is_compressible h m) messages
          \/ m ∈ filter (fun m => Classify.is_protected h m) messages)
    /\ length other_messages
       = length (filter (fun m => Classify.is_compressible h m) messages)
         + length (filter (fun m => Classify.is_protected h m) messages).
Proof.
  intros h.
  unfold CompressionServiceRest._separate_system_messages, Eff.reads.
  rewrite separate_system_loop_filter. simpl. fold h.
  eexists _, _. split; [reflexivity|]. split; [done|].
  split; [apply sublist_filter|].
  assert (Hperm : filter (fun m => Classify.is_system h m) messages
                  ++ filter (fun m => negb (Classify.is_system h m)) messages
                  ≡ₚ messages).
  { clear. induction messages as [|msg rest IH]; [done|].
    rewrite !filter_cons_bool. destruct (Classify.is_system h msg); simpl.
    - by rewrite IH.
    - by rewrite <- Permutation_middle, IH. }
  split; [done|]. split.
  - intros m. rewrite !list_elem_of_filter.
    unfold Classify.is_compressible, Classify.is_protected.
    destruct (Classify.is_system h m),
      (CompressionService._should_compress_message (Eff.deref h m));
      simpl; intuition.
  - pose proof (three_classes_permutation h messages) as H3.
    apply Permutation_length in Hperm, H3. rewrite !length_app in *. lia.
Qed.

(** ** The entry point as a whole *)

Section MoreEntryPoint.
Import Eff CompressionService Classify.
Context `{TokenAnalyzer} `{CompressionEngine} `{Clock}.

Lemma classes_after_growth (h ext : list (gmap string value)) (l : list nat) :
  valid_refs h l ->
  filter (fun m => is_system (h ++ ext) m) l = filter (fun m => is_system h m) l
  /\ filter (fun m => is_compressible (h ++ ext) m) l
     = filter (fun m => is_compressible h m) l
  /\ filter (fun m => is_protected (h ++ ext) m) l
     = filter (fun m => is_protected h m) l.
Proof.
  intros Hv. unfold valid_refs in Hv. rewrite Forall_forall in Hv.
  repeat split; apply filter_ext_bool, Forall_forall; intros m Hm;
    unfold is_system, is_compressible, is_protected, is_system;
    by rewrite deref_app_l by by apply Hv.
Qed.

Lemma filter_idem_bool {A} (f : A -> bool) (l : list A) :
  filter (fun x => f x) (filter (fun x => f x) l) = filter (fun x => f x) l.
Proof.
  induction l as [|x l IH]; [done|].
  rewrite filter_cons_bool. destruct (f x) eqn:Hx; [|done].
  by rewrite filter_cons_bool, Hx, IH.
Qed.

Lemma filter_disjoint_bool {A} (f g : A -> bool) (l : list A) :
  (forall x, f x = true -> g x = false) ->
  filter (fun x => g x) (filter (fun x => f x) l) = [].
Proof.
  intros Hfg. induction l as [|x l IH]; [done|].
  rewrite filter_cons_bool. destruct (f x) eqn:Hx; [|done].
  by rewrite filter_cons_bool, (Hfg x Hx).
Qed.

(** The classes of the system part and of the protected part of a list do
    not change when the store grows. *)
Lemma system_part_classes (h ext : list (gmap string value)) (l : list nat) :
  valid_refs h l ->
  let s := filter (fun m => is_system h m) l in
  filter (fun m => is_system (h ++ ext) m) s = s
  /\ filter (fun m => is_compressible (h ++ ext) m) s = []
  /\ filter (fun m => is_protected (h ++ ext) m) s = [].
Proof.
  intros Hv s.
  destruct (classes_after_growth h ext s) as (-> & -> & ->).
  { by apply valid_refs_filter. }
  subst s. split; [apply filter_idem_bool|].
  split; apply filter_disjoint_bool; intros m Hm;
    unfold is_compressible, is_protected; by rewrite Hm.
Qed.

Lemma protected_part_classes (h ext : list (gmap string value)) (l : list nat) :
  valid_refs h l ->
  let p := filter (fun m => is_protected h m) l in
  filter (fun m => is_system (h ++ ext) m) p = []
  /\ filter (fun m => is_compressible (h ++ ext) m) p = []
  /\ filter (fun m => is_protected (h ++ ext) m) p = p.
Proof.
  intros Hv p.
  destruct (classes_after_growth h ext p) as (-> & -> & ->).
  { by apply valid_refs_filter. }
  subst p. split; [|split]; [| |apply filter_idem_bool].
  - apply filter_disjoint_bool. intros m. unfold is_protected.
    by destruct (is_system h m).
  - apply filter_disjoint_bool. intros m. unfold is_protected, is_compressible.
    destruct (is_system h m); [done|].
    by destruct (_should_compress_message (deref h m)).
Qed.

Lemma compress_segments_at_most_three (segs : list CompressionSegment)
    (segment_budget : Z) (w w' : world) (r : result string) :
  compress_segments segs segment_budget w = (r, w') ->
  exists calls,
    w' = with_log w (engine_log w ++ calls) /\ length calls <= 3.
Proof.
  destruct (compress_segments_run segs segment_budget w)
    as (new & summary & Hrun & Hc & _).
  rewrite Hrun. intros [= _ <-]. exists new. split; [done|].
  rewrite <- (length_map call_content), Hc, length_map, length_take. lia.
Qed.

End MoreEntryPoint.

(** X7.  On the normal path the returned list is never longer than the
    input: all compressible messages are replaced by one message, so the
    length drops by the number of compressible messages less one, and is
    unchanged when there is none. *)
Theorem normal_path_never_lengthens `{TokenAnalyzer} `{CompressionEngine}
    `{Clock} (messages : list nat) (error_info : string) (w w' : world)
    (out : list nat) :
  CompressionService.handle_token_overflow_try messages error_info w
    = (Ok out, w') ->
  let compressible :=
    filter (fun m => Classify.is_compressible (heap w) m) messages in
  length out <= length messages
  /\ length out + length compressible
     = length messages + (if compressible is [] then 0 else 1).
Proof.
  intros Htry compressible.
  pose proof (three_classes_permutation (heap w) messages) as Hperm.
  apply Permutation_length in Hperm. rewrite !length_app in Hperm.
  fold compressible in Hperm.
  destruct (handle_try_cases messages error_info w)
    as [[e He]|[[Hc He]|[Hc (limits & sb & segs & new & summary &
                              Hp & Hb & Hs & Hcs & Hprog & He)]]];
    rewrite He in Htry; simplify_eq; fold compressible in Hc.
  - rewrite Hc in *. rewrite length_app. simpl in *. lia.
  - rewrite !length_app. simpl. destruct compressible; [done|]. simpl in *. lia.
Qed.

(** X8.  One call of [handle_token_overflow] calls the engine at most 3
    times, and not at all when no message is compressible; it reads the
    clock at most once and creates at most one object, whether it returns
    or raises. *)
Theorem handle_token_overflow_effects_bounded `{TokenAnalyzer}
    `{CompressionEngine} `{Clock}
    (messages : list nat) (error_info : string) (w : world) :
  let res := CompressionService.handle_token_overflow messages error_info w in
  exists calls,
    engine_log res.2 = engine_log w ++ calls
    /\ length calls <= 3
    /\ (filter (fun m => Classify.is_compressible (heap w) m) messages = [] ->
        calls = [])
    /\ clock_reads w <= clock_reads res.2 <= clock_reads w + 1
    /\ length (heap w) <= length (heap res.2) <= length (heap w) + 1.
Proof.
  intros res. subst res.
  destruct (handle_try_cases messages error_info w)
    as [[e He]|[[Hc He]|[Hc (limits & sb & segs & new & summary &
                              Hp & Hb & Hs & Hcs & Hprog & He)]]].
  - rewrite (handle_of_try_raise _ _ _ _ _ He), emergency_fallback_run.
    exists []. rewrite app_nil_r.
    destruct (last _); [destruct (_ !! "content") as [[| | |]|]|]; simpl;
      rewrite ?length_app; simpl; repeat split; try done; lia.
  - rewrite (handle_of_try_ok _ _ _ _ _ He). exists [].
    rewrite app_nil_r. simpl. repeat split; try done; lia.
  - rewrite (handle_of_try_ok _ _ _ _ _ He). exists new. simpl.
    apply compress_segments_at_most_three in Hcs as (calls & Heq & Hlen).
    injection Heq as Heq. apply app_inv_head in Heq. subst calls.
    rewrite length_app. simpl. repeat split; try done; lia.
Qed.

(** X9.  When the [try] block raises and the last user message has a string
    content (or there is no user message), the call returns the system
    messages followed by one new object and nothing else.  Without a user
    message the object is the placeholder; otherwise it is a copy of the
    last user message that differs from it under ["content"] only, where it
    has the emergency prefix.  The engine log is what the [try] block left. *)
Theorem emergency_output `{TokenAnalyzer} `{CompressionEngine} `{Clock}
    (messages : list nat) (error_info : string) (w w1 : world) (e : exn) :
  CompressionService.handle_token_overflow_try messages error_info w
    = (Raise e, w1) ->
  Classify.last_user_has_text (heap w) messages ->
  let h := heap w in
  exists new,
    CompressionService.handle_token_overflow messages error_info w
      = (Ok (filter (fun m => Classify.is_system h m) messages ++ [length h]),
         Eff.with_heap w (h ++ [new]))
    /\ match last (filter (fun m => Classify.is_user h m) messages) with
       | None => new = CompressionService.placeholder_message
       | Some u =>
           exists c,
             Eff.deref h u !! "content" = Some (VStr c) /\
             new !! "content" = Some (VStr ("[Emergency mode] " +:+ c)) /\
             forall k, k <> "content" -> new !! k = Eff.deref h u !! k
       end.
Proof.
  intros Htry Htext h.
  assert (Hw : w1 = w).
  { destruct (handle_try_cases messages error_info w)
      as [[e' He]|[[Hc He]|[Hc (limits & sb & segs & new & summary &
                                Hp & Hb & Hs & Hcs & Hprog & He)]]];
      rewrite He in Htry; by simplify_eq. }
  subst w1.
  rewrite (handle_of_try_raise _ _ _ _ _ Htry), emergency_fallback_run.
  fold h.
  destruct (last (filter (fun m => Classify.is_user h m) messages))
    as [u|] eqn:Hlast.
  - destruct (Htext u Hlast) as [c Hc]. fold h in Hc. rewrite Hc.
    eexists. split; [reflexivity|]. exists c.
    split; [done|]. split; [by rewrite lookup_insert_eq|].
    intros k Hk. by rewrite lookup_insert_ne.
  - by eexists.
Qed.

(** X10.  Applying the normal path to its own output keeps the shape: the
    second output has the same system messages and the same protected
    messages around at most one synthetic message, and the same length as
    the first; the synthetic message of the first output is the only thing
    compressed again. *)
Theorem reapplication_keeps_shape `{TokenAnalyzer} `{CompressionEngine}
    `{Clock} (messages : list nat) (error_info error_info' : string)
    (w w' w'' : world) (out out' : list nat) :
  Classify.valid_refs (heap w) messages ->
  CompressionService.handle_token_overflow_try messages error_info w
    = (Ok out, w') ->
  CompressionService.handle_token_overflow_try out error_info' w'
    = (Ok out', w'') ->
  let system_messages := filter (fun m => Classify.is_system (heap w) m) messages in
  let protected := filter (fun m => Classify.is_protected (heap w) m) messages in
  exists synthetic synthetic',
    out = system_messages ++ synthetic ++ protected
    /\ out' = system_messages ++ synthetic' ++ protected
    /\ length synthetic = length synthetic'
    /\ length synthetic <= 1
    /\ filter (fun m => Classify.is_compressible (heap w') m) out = synthetic
    /\ length out' = length out.
Proof.
  intros Hv Htry Htry'. cbv zeta.
  assert (Hss := fun ext => system_part_classes (heap w) ext messages Hv).
  assert (Hpp := fun ext => protected_part_classes (heap w) ext messages Hv).
  cbv zeta in Hss, Hpp.
  destruct (handle_try_cases messages error_info w)
    as [[e He]|[[Hc He]|[Hc (limits & sb & segs & new & summary &
                              Hp & Hb & Hs & Hcs & Hprog & He)]]];
    rewrite He in Htry; [discriminate| |]; injection Htry as <- <-;
    set (system_messages :=
           filter (fun m => Classify.is_system (heap w) m) messages) in *;
    set (protected :=
           filter (fun m => Classify.is_protected (heap w) m) messages) in *.
  - (* nothing was compressible: the second call sees the same classes *)
    destruct (Hss []) as (Hs1 & Hs2 & Hs3). destruct (Hpp []) as (Hp1 & Hp2 & Hp3).
    rewrite app_nil_r in *.
    destruct (handle_try_cases (system_messages ++ protected) error_info' w)
      as [[e He']|[[Hc' He']|[Hc' _]]];
      [rewrite He' in Htry'; discriminate
      |rewrite He' in Htry'; injection Htry' as <- <-|].
    + exists [], []. rewrite !filter_app, Hs1, Hs2, Hs3, Hp1, Hp3, Hp2.
      simpl. rewrite ?app_nil_r. repeat split; try done; lia.
    + exfalso. apply Hc'. by rewrite filter_app, Hs2, Hp2.
  - (* the synthetic message is the one compressible message of the output *)
    set (synth := CompressionService.compressed_message summary (epoch_seconds (clock_reads w))) in *.
    destruct (Hss [synth]) as (Hs1 & Hs2 & Hs3).
    destruct (Hpp [synth]) as (Hp1 & Hp2 & Hp3).
    set (w1 := {| heap := heap w ++ [synth];
                  engine_log := engine_log w ++ new;
                  clock_reads := S (clock_reads w) |}) in *.
    assert (Hfresh_sys : Classify.is_system (heap w ++ [synth]) (length (heap w)) = false).
    { unfold Classify.is_system. simpl. by rewrite deref_fresh. }
    assert (Hfresh_comp :
              Classify.is_compressible (heap w ++ [synth]) (length (heap w)) = true).
    { unfold Classify.is_compressible, Classify.is_system. simpl.
      by rewrite deref_fresh. }
    assert (Hfresh_prot :
              Classify.is_protected (heap w ++ [synth]) (length (heap w)) = false).
    { unfold Classify.is_protected, Classify.is_system. simpl.
      by rewrite deref_fresh. }
    assert (Hcomp' :
      filter (fun m => Classify.is_compressible (heap w1) m)
        (system_messages ++ length (heap w) :: protected)
      = [length (heap w)]).
    { change (heap w1) with (heap w ++ [synth]).
      rewrite !filter_app, filter_cons_bool, Hfresh_comp.
      by rewrite Hs2, Hp2. }
    destruct (handle_try_cases
                (system_messages ++ length (heap w) :: protected)
                error_info' w1)
      as [[e He']|[[Hc' He']|[Hc' (limits' & sb' & segs' & new' & summary' &
                                   _ & _ & _ & _ & _ & He')]]];
      [rewrite He' in Htry'; discriminate
      |by rewrite Hcomp' in Hc'
      |rewrite He' in Htry'; injection Htry' as <- <-].
    + exists [length (heap w)], [length (heap w1)].
      change (heap w1) with (heap w ++ [synth]).
      rewrite !filter_app, !filter_cons_bool.
      rewrite Hfresh_sys, Hfresh_comp, Hfresh_prot.
      rewrite Hs1, Hs2, Hs3, Hp1, Hp2, Hp3. simpl.
      rewrite !app_nil_r, !length_app. simpl. repeat split; try done; lia.
Qed.

(** ** Sample runs of the properties above *)

Section MoreConcreteRuns.
Import Eff CompressionService Classify Examples MoreExamples.

Lemma fallback_length_bounded_witness :
  (Py.len (LlmCompressionEngine._fallback_compression
             "earlier summary" "new content" 10) <= 10 * 3 + 3)%Z.
Proof. apply fallback_length_bounded. lia. Defined.

Lemma fallback_appends_ellipsis_to_whole_content_witness :
  LlmCompressionEngine._fallback_compression "" "new content" 50
    = "new content" +:+ "..."
  /\ ("earlier summary" <> "" ->
      LlmCompressionEngine._fallback_compression
        "earlier summary" "new content" 50
        = "earlier summary" +:+ nl +:+ nl +:+ "[New Content Summary] "
            +:+ "new content" +:+ "...").
Proof.
  apply (fallback_appends_ellipsis_to_whole_content
           "earlier summary" "new content" 50); vm_compute; done.
Defined.

Lemma compress_content_on_response_witness :
  LlmCompressionEngine.compress_content llm_answers
    "earlier summary" "new content" 1
  = "short summary".
Proof.
  etrans.
  - apply (compress_content_on_response llm_answers "earlier summary"
             "new content" 1
             {[ "role" := VStr "assistant";
                "content" := VStr "short summary" ]}).
    reflexivity.
  - vm_compute. reflexivity.
Defined.

Lemma normal_path_never_lengthens_witness :
  length [0; 5; 2] <= length [0; 1; 2; 3; 4]
  /\ length [0; 5; 2]
       + length (filter (fun m => is_compressible (heap world0) m) [0; 1; 2; 3; 4])
     = length [0; 1; 2; 3; 4]
       + (if filter (fun m => is_compressible (heap world0) m) [0; 1; 2; 3; 4]
          is [] then 0 else 1).
Proof.
  apply (@normal_path_never_lengthens token_error_analyzer engine_ok clock
           [0; 1; 2; 3; 4] "garbled text with no numbers" world0
           (@handle_token_overflow_try token_error_analyzer engine_ok clock
              [0; 1; 2; 3; 4] "garbled text with no numbers" world0).2).
  vm_compute. reflexivity.
Defined.

Lemma emergency_output_witness :
  exists new,
    @handle_token_overflow token_error_analyzer engine_ok clock
      [0; 1; 2; 3; 4] huge_limit_error world0
    = (Ok (filter (fun m => is_system (heap world0) m) [0; 1; 2; 3; 4]
             ++ [length (heap world0)]),
       with_heap world0 (heap world0 ++ [new]))
    /\ match last (filter (fun m => is_user (heap world0) m) [0; 1; 2; 3; 4]) with
       | None => new = placeholder_message
       | Some u =>
           exists c,
             deref (heap world0) u !! "content" = Some (VStr c) /\
             new !! "content" = Some (VStr ("[Emergency mode] " +:+ c)) /\
             forall k, k <> "content" -> new !! k = deref (heap world0) u !! k
       end.
Proof.
  apply (@emergency_output token_error_analyzer engine_ok clock
           [0; 1; 2; 3; 4] huge_limit_error world0 world0 OverflowError).
  - vm_compute. reflexivity.
  - intros u Hu. vm_compute in Hu. injection Hu as <-.
    exists "Book the first one.". vm_compute. reflexivity.
Defined.

Lemma reapplication_keeps_shape_witness :
  exists synthetic synthetic',
    [0; 5; 2]
      = filter (fun m => is_system (heap world0) m) [0; 1; 2; 3; 4]
          ++ synthetic
          ++ filter (fun m => is_protected (heap world0) m) [0; 1; 2; 3; 4]
    /\ [0; 6; 2]
       = filter (fun m => is_system (heap world0) m) [0; 1; 2; 3; 4]
           ++ synthetic'
           ++ filter (fun m => is_protected (heap world0) m) [0; 1; 2; 3; 4]
    /\ length synthetic = length synthetic'
    /\ length synthetic <= 1
    /\ filter (fun m => is_compressible
                 (heap (@handle_token_overflow_try token_error_analyzer
                          engine_ok clock [0; 1; 2; 3; 4]
                          "garbled text with no numbers" world0).2) m)
         [0; 5; 2] = synthetic
    /\ length [0; 6; 2] = length [0; 5; 2].
Proof.
  apply (@reapplication_keeps_shape token_error_analyzer engine_ok clock
           [0; 1; 2; 3; 4] "garbled text with no numbers"
           "token limit 100 exceeded, current request: 200" world0
           (@handle_token_overflow_try token_error_analyzer engine_ok clock
              [0; 1; 2; 3; 4] "garbled text with no numbers" world0).2
           (@handle_token_overflow_try token_error_analyzer engine_ok clock
              [0; 5; 2] "token limit 100 exceeded, current request: 200"
              (@handle_token_overflow_try token_error_analyzer engine_ok clock
                 [0; 1; 2; 3; 4] "garbled text with no numbers" world0).2).2).
  - unfold valid_refs. simpl. repeat constructor.
  - vm_compute. reflexivity.
  - vm_compute. reflexivity.
Defined.

End MoreConcreteRuns.

(** * The chat client and further properties *)

(** ** Detection of token-limit errors *)

Section DetectionFacts.
Import OpenAILLM.

Lemma str_lower_app (a b : string) :
  str_lower (a +:+ b) = str_lower a +:+ str_lower b.
Proof.
  induction a as [|c a IH]; [done|].
  rewrite append_cons. simpl. by rewrite IH, append_cons.
Qed.

Lemma str_lower_app_inv (s a b : string) :
  str_lower s = a +:+ b ->
  exists s1 s2, s = s1 +:+ s2 /\ str_lower s1 = a /\ str_lower s2 = b.
Proof.
  revert s. induction a as [|c a IH]; intros s Hs.
  - by exists "", s.
  - rewrite append_cons in Hs. destruct s as [|x s]; [done|].
    simpl in Hs. injection Hs as Hx Hs.
    destruct (IH s Hs) as (s1 & s2 & -> & <- & <-).
    exists (String x s1), s2. rewrite append_cons. simpl. by rewrite Hx.
Qed.

Lemma prefix_app (k t : string) :
  String.prefix k t = true <-> exists post, t = k +:+ post.
Proof.
  revert t. induction k as [|c k IH]; intros t.
  - split; [intros _; by exists t|]. intros _. by destruct t.
  - destruct t as [|x t]; simpl.
    + split; [done|]. intros [post Hpost]. by rewrite append_cons in Hpost.
    + destruct (Ascii.ascii_dec c x) as [->|Hne].
      * rewrite IH. split; intros [post Hpost]; exists post.
        -- by rewrite append_cons, Hpost.
        -- rewrite append_cons in Hpost. by injection Hpost.
      * split; [done|]. intros [post Hpost].
        rewrite append_cons in Hpost. by injection Hpost as -> _.
Qed.

Lemma contains_eq (k t : string) :
  contains k t =
  if String.prefix k t then true
  else match t with
       | EmptyString => false
       | String _ t' => contains k t'
       end.
Proof. by destruct t. Qed.

Lemma contains_app (k t : string) :
  contains k t = true <-> exists pre post, t = pre +:+ k +:+ post.
Proof.
  induction t as [|x t IH].
  - rewrite contains_eq. destruct (String.prefix k "") eqn:Hp.
    + split; [intros _|done]. apply prefix_app in Hp as [post Hp].
      by exists "", post.
    + split; [done|]. intros (pre & post & Ht).
      destruct pre as [|y pre]; [|by rewrite append_cons in Ht].
      assert (String.prefix k "" = true) by (apply prefix_app; eauto).
      congruence.
  - rewrite contains_eq. destruct (String.prefix k (String x t)) eqn:Hp.
    + split; [intros _|done]. apply prefix_app in Hp as [post Hp].
      by exists "", post.
    + rewrite IH. split.
      * intros (pre & post & ->). exists (String x pre), post.
        by rewrite append_cons.
      * intros (pre & post & Ht). destruct pre as [|y pre].
        -- assert (String.prefix k (String x t) = true)
             by (apply prefix_app; eauto).
           congruence.
        -- rewrite append_cons in Ht. injection Ht as _ ->. eauto.
Qed.

End DetectionFacts.

(** X11.  [_is_token_limit_error] holds exactly of the texts that contain
    one of the five keywords in some spelling of upper and lower case
    letters; the text around the keyword does not matter. *)
Theorem token_limit_error_iff (error_text : string) :
  OpenAILLM._is_token_limit_error error_text = true <->
  exists keyword pre mid post,
    In keyword OpenAILLM.token_error_keywords /\
    error_text = pre +:+ mid +:+ post /\
    OpenAILLM.str_lower mid = keyword.
Proof.
  unfold OpenAILLM._is_token_limit_error. rewrite existsb_exists. split.
  - intros (keyword & Hin & Hc).
    apply contains_app in Hc as (a & b & Hc).
    apply str_lower_app_inv in Hc as (pre & rest & -> & _ & Hrest).
    apply str_lower_app_inv in Hrest as (mid & post & -> & Hmid & _).
    by exists keyword, pre, mid, post.
  - intros (keyword & pre & mid & post & Hin & -> & Hmid).
    exists keyword. split; [done|]. apply contains_app.
    exists (OpenAILLM.str_lower pre), (OpenAILLM.str_lower post).
    by rewrite !str_lower_app, Hmid.
Qed.

(** X12.  The message of the API about the context length is both
    recognised and read back: a text that has, after any words without
    digits, the sentence [maximum context length is <limit> tokens], then
    any words without digits on the same line, then [<requested> tokens],
    followed by anything, is a token-limit error for
    [_is_token_limit_error]; and when neither number has more than 4300
    digits [parse_error_info] returns the smaller and the larger of the
    two. *)
Theorem openai_message_is_recognised_and_parsed
    (pre mid post : string) (limit requested : Z) :
  (0 <= limit)%Z -> (0 <= requested)%Z ->
  Text.has_digit pre = false ->
  Text.has_digit mid = false -> Text.has_newline mid = false ->
  let error_text :=
    pre +:+ "maximum context length is " +:+ Py.str_of_int limit
      +:+ " tokens" +:+ mid +:+ Py.str_of_int requested +:+ " tokens"
      +:+ post in
  OpenAILLM._is_token_limit_error error_text = true
  /\ (String.length (Py.str_of_int limit) <= Py.MAX_STR_DIGITS ->
      String.length (Py.str_of_int requested) <= Py.MAX_STR_DIGITS ->
      TokenErrorAnalyzer.parse_error_info error_text
      = Ok (Z.min limit requested, Z.max limit requested)).
Proof.
  intros Hl Hr Hpre Hmid Hnl error_text.
  destruct (str_of_int_nonneg limit Hl) as (Hlv & Hld & Hlne).
  destruct (str_of_int_nonneg requested Hr) as (Hrv & Hrd & Hrne).
  split.
  - unfold OpenAILLM._is_token_limit_error. apply existsb_exists.
    exists "maximum context length". split; [simpl; tauto|].
    apply contains_app. subst error_text.
    exists (OpenAILLM.str_lower pre),
      (OpenAILLM.str_lower
         (" is " +:+ Py.str_of_int limit +:+ " tokens" +:+ mid
            +:+ Py.str_of_int requested +:+ " tokens" +:+ post)).
    change "maximum context length is "
      with ("maximum context length" +:+ " is ").
    by rewrite (append_assoc "maximum context length"), !str_lower_app.
  - intros Hshort1 Hshort2.
    unfold TokenErrorAnalyzer.parse_error_info. subst error_text.
    rewrite openai_template_match by done.
    unfold Regex.group. simpl.
    rewrite !int_of_str_short by done. simpl. by rewrite Hlv, Hrv.
Qed.

(** ** The chat client and the budgets it causes *)

Section ClientFacts.
Import Eff CompressionService Classify OpenAILLM.
Context `{TokenAnalyzer} `{CompressionEngine} `{Clock}.

Lemma handle_growth (messages : list nat) (error_info : string) (w : world) :
  let w' := (handle_token_overflow messages error_info w).2 in
  length (engine_log w') <= length (engine_log w) + 3
  /\ length (heap w') <= length (heap w) + 1.
Proof.
  destruct (handle_try_cases messages error_info w)
    as [[e He]|[[Hc He]|[Hc (limits & sb & segs & new & summary &
                              Hp & Hb & Hs & Hcs & Hprog & He)]]].
  - rewrite (handle_of_try_raise _ _ _ _ _ He), emergency_fallback_run.
    destruct (last _); [destruct (_ !! "content") as [[| | |]|]|]; simpl;
      rewrite ?length_app; simpl; lia.
  - rewrite (handle_of_try_ok _ _ _ _ _ He). simpl. lia.
  - rewrite (handle_of_try_ok _ _ _ _ _ He). simpl.
    apply compress_segments_at_most_three in Hcs as (calls & Heq & Hlen).
    injection Heq as Heq. apply app_inv_head in Heq. subst calls.
    rewrite !length_app. simpl. lia.
Qed.

Lemma ask_step (has_service : bool) (client : ChatClient) (fuel : nat)
    (messages : list nat) (w : world) (k : nat) :
  ask has_service client (S fuel) messages (w, k) =
  match client k (map (deref (heap w)) messages) with
  | Answer message => Some (Ok message, (w, S k))
  | ApiError text =>
      if has_service && _is_token_limit_error text then
        match handle_token_overflow messages text w with
        | (Ok compressed_messages, w') =>
            ask has_service client fuel compressed_messages (w', S k)
        | (Raise e, w') => Some (Raise e, (w', S k))
        end
      else Some (Raise (OtherException text), (w, S k))
  end.
Proof. reflexivity. Qed.

End ClientFacts.


Section BudgetFacts.
Import Eff CompressionService.

Lemma round53_le_double (n : Z) :
  (0 <= n)%Z -> (0 <= PyFloat.round53 n <= 2 * n)%Z.
Proof.
  intros Hn. unfold PyFloat.round53.
  destruct (n <? 2 ^ 53)%Z eqn:E; [lia|]. apply Z.ltb_ge in E.
  assert (Hpos : (0 < n)%Z) by lia.
  pose proof (Z.log2_spec n Hpos) as [Hlo _].
  assert (H53 : (53 <= Z.log2 n)%Z).
  { apply Z.log2_le_pow2; lia. }
  set (e := (Z.log2 n - 52)%Z).
  assert (He : (0 < 2 ^ e)%Z) by (apply Z.pow_pos_nonneg; lia).
  assert (Hle : (2 ^ e <= n)%Z).
  { etrans; [|exact Hlo]. apply Z.pow_le_mono_r; lia. }
  pose proof (Z.div_mod n (2 ^ e) ltac:(lia)) as Hdm.
  pose proof (Z.mod_pos_bound n (2 ^ e) He) as Hmod.
  assert (Hq : (0 <= n / 2 ^ e)%Z) by (apply Z.div_pos; lia).
  destruct ((2 ^ (e - 1) <? n mod 2 ^ e)%Z
            || (n mod 2 ^ e =? 2 ^ (e - 1))%Z && Z.odd (n / 2 ^ e)); nia.
Qed.

Lemma system_budget_bounds (max_tokens system_budget : Z) :
  (0 <= max_tokens)%Z ->
  system_budget_of max_tokens = Ok system_budget ->
  (0 <= system_budget)%Z /\ (2 * system_budget <= max_tokens)%Z.
Proof.
  intros Hn. unfold system_budget_of, PyFloat.int_mul_quarter, PyFloat.of_int.
  rewrite (Z.abs_eq max_tokens) by lia.
  pose proof (round53_le_double max_tokens Hn) as Hr.
  assert (Hv : (0 <= Z.sgn max_tokens * PyFloat.round53 max_tokens
                  <= 2 * max_tokens)%Z).
  { destruct (Z.eq_dec max_tokens 0%Z) as [->|Hne]; [vm_compute; split; discriminate|].
    rewrite Z.sgn_pos by lia. lia. }
  unfold mbind, result_bind.
  destruct (2 ^ 1024 <=? _)%Z; [done|]. intros [= <-].
  split; [apply Z.quot_pos; lia|].
  pose proof (Z.quot_rem' (Z.sgn max_tokens * PyFloat.round53 max_tokens) 4) as Hq.
  pose proof (Z.rem_nonneg (Z.sgn max_tokens * PyFloat.round53 max_tokens) 4
                ltac:(lia) ltac:(lia)) as Hrem.
  lia.
Qed.

End BudgetFacts.

(** X14.  With the analyzer of the repository, the service never hands a
    negative [max_tokens] to the engine, whatever the error text says: every
    engine call of [handle_token_overflow] has a budget that is not
    negative, and at most half of the parsed limit. *)
Theorem engine_budget_never_negative (engine : CompressionEngine) (clk : Clock)
    (messages : list nat) (error_info : string) (w : world) :
  let res :=
    @CompressionService.handle_token_overflow token_error_analyzer engine clk
      messages error_info w in
  exists calls,
    engine_log res.2 = engine_log w ++ calls
    /\ Forall (fun c => (0 <= call_max_tokens c)%Z) calls
    /\ forall parsed,
         TokenErrorAnalyzer.parse_error_info error_info = Ok parsed ->
         Forall (fun c => (call_max_tokens c <= parsed.1 / 2)%Z) calls.
Proof.
  intros res. subst res.
  destruct (@handle_try_cases token_error_analyzer engine clk
              messages error_info w)
    as [[e He]|[[Hc He]|[Hc (limits & sb & segs & new & summary &
                              Hp & Hb & Hs & Hcs & Hprog & He)]]].
  - rewrite (handle_of_try_raise _ _ _ _ _ He), emergency_fallback_run.
    exists []. rewrite app_nil_r.
    by destruct (last _); [destruct (_ !! "content") as [[| | |]|]|].
  - rewrite (handle_of_try_ok _ _ _ _ _ He). exists []. by rewrite app_nil_r.
  - rewrite (handle_of_try_ok _ _ _ _ _ He). exists new. split; [done|].
    simpl in Hp.
    pose proof (parse_error_info_nonneg error_info limits Hp) as Hnn.
    apply system_budget_bounds in Hb as [Hb0 Hb1]; [|done].
    destruct (@compress_segments_run engine segs
                ((limits.1 - sb) / 2)%Z w)
      as (new' & summary' & Hrun & _ & Hbud & _).
    rewrite Hrun in Hcs. injection Hcs as _ Hlog.
    apply app_inv_head in Hlog. subst new'.
    split.
    + eapply Forall_impl; [exact Hbud|]. intros c Hc'. simpl in Hc'.
      rewrite Hc'. apply Z.div_pos; lia.
    + intros parsed Hparsed. rewrite Hp in Hparsed. injection Hparsed as <-.
      eapply Forall_impl; [exact Hbud|]. intros c Hc'. simpl in Hc'.
      rewrite Hc'. apply Z.div_le_mono; lia.
Qed.

(** ** Segments of a conversation that fits, and the roles of a segment *)

Section MoreSegmentFacts.
Import Eff CompressionService Grouping.
Variable est : string -> Z.
Hypothesis est_nonneg : forall s, (0 <= est s)%Z.

Lemma tokens_nonneg (g : list (gmap string value)) : (0 <= tokens est g)%Z.
Proof.
  unfold tokens, cost. induction g as [|m g IH]; simpl; [done|].
  pose proof (est_nonneg (_format_message_content m)). lia.
Qed.

Lemma group_loop_all_fit (segment_budget : Z)
    (messages : list (gmap string value)) :
  forall done cur,
    (tokens est (cur ++ messages) <= segment_budget)%Z ->
    group_loop est segment_budget done cur messages = (done, cur ++ messages).
Proof.
  induction messages as [|msg rest IH]; intros done cur Hfit; simpl.
  - by rewrite app_nil_r.
  - rewrite tokens_app in Hfit. simpl in Hfit.
    pose proof (tokens_nonneg rest) as Hrest. fold (tokens est rest) in Hfit.
    assert (Hno : (segment_budget <? tokens est cur + cost est msg)%Z = false)
      by (apply Z.ltb_ge; lia).
    rewrite Hno. simpl. rewrite IH.
    + by rewrite <- app_assoc.
    + rewrite <- app_assoc, tokens_app. simpl.
      fold (tokens est rest). lia.
Qed.

Lemma groups_all_fit (segment_budget : Z) (messages : list (gmap string value)) :
  messages <> [] ->
  (tokens est messages <= segment_budget)%Z ->
  groups est messages segment_budget = [messages].
Proof.
  intros Hne Hfit. unfold groups. rewrite group_loop_all_fit by done.
  by destruct messages.
Qed.

End MoreSegmentFacts.

Section MoreTypeFacts.
Import CompressionService Grouping.

Lemma text_of_Some (v : value) (s : string) : text_of v = Some s <-> v = VStr s.
Proof. destruct v; simpl; split; congruence. Qed.

Lemma NoDup_omap_text_of (l : list value) :
  NoDup l -> NoDup (omap text_of l).
Proof.
  induction 1 as [|v l Hv _ IH]; simpl; [constructor|].
  destruct (text_of v) as [s|] eqn:Hs; [|done].
  constructor; [|done]. rewrite list_elem_of_omap.
  intros (v' & Hv' & Hs'). apply text_of_Some in Hs, Hs'. congruence.
Qed.

End MoreTypeFacts.

(** X15.  A conversation that fits is compressed in one round: when the
    estimates of the compressible messages (none negative) add up to at
    most the segment budget, segmentation returns one segment holding all
    of them, and [_progressive_compression] makes exactly one engine call,
    with the empty summary and the whole formatted conversation, and
    returns the engine's answer, or the failure text when the call
    raises. *)
Theorem conversation_that_fits_is_one_round `{TokenAnalyzer}
    `{CompressionEngine} (est : string -> Z)
    (messages : list nat) (budget_tokens : Z) (w : world) :
  (forall s, estimate_tokens s = Ok (est s)) ->
  (forall s, (0 <= est s)%Z) ->
  let objects := map (Eff.deref (heap w)) messages in
  Forall (fun msg => CompressionService._should_compress_message msg) objects ->
  messages <> [] ->
  (Grouping.tokens est objects <= budget_tokens / 2)%Z ->
  let text :=
    Py.join (nl +:+ nl) (map CompressionService._format_message_content objects) in
  let outcome :=
    compress_content (length (engine_log w)) "" text (budget_tokens / 2) in
  CompressionService._split_into_segments objects (budget_tokens / 2)
    = Ok [Grouping.segment_of est objects]
  /\ CompressionService._progressive_compression messages budget_tokens w
     = (Ok match outcome with
           | Ok summary => summary
           | Raise _ => CompressionService.failed_round_summary "" 0 text
           end,
        Eff.with_log w
          (engine_log w ++
             [ {| call_summary := ""; call_content := text;
                  call_max_tokens := (budget_tokens / 2)%Z;
                  call_outcome := outcome |} ])).
Proof.
  intros Hest Hnn objects Hmsgs Hne Hfit text outcome.
  assert (Hsplit :
            CompressionService._split_into_segments objects (budget_tokens / 2)
            = Ok [Grouping.segment_of est objects]).
  { rewrite (split_into_segments_groups est Hest).
    - rewrite groups_all_fit; [done|done| |done].
      subst objects. by destruct messages.
    - eapply Forall_impl; [exact Hmsgs|]. apply should_compress_textual. }
  split; [done|].
  rewrite progressive_compression_run. fold objects. rewrite Hsplit.
  unfold CompressionService.compress_segments,
    CompressionService.compression_loop, CompressionService._format_segment_content,
    Eff.try_except, Eff.call_engine, Eff.with_log, mbind, M_bind, mret, M_ret.
  simpl. fold text. fold outcome. by destruct outcome.
Qed.

(** X16.  The [message_types] of a segment are the roles of its messages,
    each listed once: for a list of compressible messages every segment
    comes from a group of consecutive messages, its [message_types] has no
    duplicates, and a role is listed exactly when a message of the group
    has it (so only ["user"] and ["tool"] are listed). *)
Theorem segment_message_types `{TokenAnalyzer} (est : string -> Z)
    (messages : list (gmap string value)) (segment_budget : Z) :
  (forall s, estimate_tokens s = Ok (est s)) ->
  Forall (fun msg => CompressionService._should_compress_message msg) messages ->
  exists grouped segs,
    CompressionService._split_into_segments messages segment_budget = Ok segs
    /\ concat grouped = messages
    /\ Forall2 (fun seg g =>
         NoDup (message_types seg)
         /\ (forall role, role ∈ message_types seg <->
               exists msg, msg ∈ g /\ msg !! "role" = Some (VStr role))
         /\ (forall role, role ∈ message_types seg ->
               role = "user" \/ role = "tool"))
       segs grouped.
Proof.
  intros Hest Hmsgs.
  eexists (Grouping.groups est messages segment_budget), _.
  split.
  - apply (split_into_segments_groups est Hest).
    eapply Forall_impl; [exact Hmsgs|]. apply should_compress_textual.
  - split; [apply groups_concat|].
    apply Forall2_fmap_l, Forall_Forall2_diag, Forall_forall.
    intros g Hg.
    assert (Hsub : forall msg, msg ∈ g ->
              CompressionService._should_compress_message msg).
    { intros msg Hmsg. rewrite Forall_forall in Hmsgs. apply Hmsgs.
      rewrite <- (groups_concat est messages segment_budget).
      apply list_elem_of_In, in_concat. exists g.
      split; by apply list_elem_of_In. }
    assert (Hin : forall role,
              role ∈ message_types (Grouping.segment_of est g) <->
              exists msg, msg ∈ g /\ msg !! "role" = Some (VStr role)).
    { intros role. simpl. rewrite list_elem_of_omap. split.
      - intros (v & Hv & Hrole). apply text_of_Some in Hrole. subst v.
        rewrite elem_of_remove_dups in Hv.
        apply list_elem_of_In, in_map_iff in Hv as (msg & Hrole & Hmsg).
        apply list_elem_of_In in Hmsg.
        exists msg. split; [done|]. specialize (Hsub msg Hmsg).
        unfold CompressionService._should_compress_message,
          CompressionService.role_of, PyVal.get in Hsub, Hrole.
        destruct (msg !! "role") as [v|]; simpl in *; [by subst v|done].
      - intros (msg & Hmsg & Hrole). exists (VStr role). split; [|done].
        rewrite elem_of_remove_dups. apply list_elem_of_In, in_map_iff.
        exists msg. split; [|by apply list_elem_of_In].
        unfold PyVal.get. by rewrite Hrole. }
    split; [|split; [exact Hin|]].
    + simpl. apply NoDup_omap_text_of, NoDup_remove_dups.
    + intros role Hrole. apply Hin in Hrole as (msg & Hmsg & Hrole).
      specialize (Hsub msg Hmsg).
      unfold CompressionService._should_compress_message,
        CompressionService.role_of, PyVal.get in Hsub.
      rewrite Hrole in Hsub. simpl in Hsub.
      apply orb_prop_elim in Hsub as [Hsub|Hsub];
        apply bool_decide_unpack in Hsub; injection Hsub as ->; tauto.
Qed.

(** ** What survives a call *)

Section SurvivalFacts.
Import Eff CompressionService Classify.

Lemma user_object_not_system (d : gmap string value) :
  has_role "user" d -> bool_decide (role_of d = VStr "system") = false.
Proof.
  unfold has_role, role_of, PyVal.get. intros Hu.
  apply bool_decide_unpack in Hu. by rewrite Hu.
Qed.

Lemma filter_system_fresh (h : list (gmap string value))
    (d : gmap string value) (l rest : list nat) :
  valid_refs h l -> valid_refs h rest ->
  bool_decide (role_of d = VStr "system") = false ->
  filter (fun m => is_system (h ++ [d]) m)
    (filter (fun m => is_system h m) l ++ length h
       :: filter (fun m => is_protected h m) rest)
  = filter (fun m => is_system h m) l.
Proof.
  intros Hl Hrest Hd.
  destruct (system_part_classes h [d] l Hl) as (Hs & _ & _).
  destruct (protected_part_classes h [d] rest Hrest) as (Hp & _ & _).
  assert (Hf : is_system (h ++ [d]) (length h) = false).
  { unfold is_system. by rewrite deref_fresh. }
  by rewrite filter_app, filter_cons_bool, Hs, Hp, Hf, app_nil_r.
Qed.

End SurvivalFacts.

(** X17.  The system messages always survive: whenever
    [handle_token_overflow] returns, on the normal path or on the emergency
    path, the system messages of the returned list are exactly the system
    messages of the input, in their order. *)
Theorem system_messages_survive `{TokenAnalyzer} `{CompressionEngine} `{Clock}
    (messages : list nat) (error_info : string) (w w' : world)
    (out : list nat) :
  Classify.valid_refs (heap w) messages ->
  CompressionService.handle_token_overflow messages error_info w
    = (Ok out, w') ->
  filter (fun m => Classify.is_system (heap w') m) out
  = filter (fun m => Classify.is_system (heap w) m) messages.
Proof.
  intros Hv Hrun.
  destruct (handle_try_cases messages error_info w)
    as [[e He]|[[Hc He]|[Hc (limits & sb & segs & new & summary &
                              Hp & Hb & Hs & Hcs & Hprog & He)]]].
  - rewrite (handle_of_try_raise _ _ _ _ _ He), emergency_fallback_run in Hrun.
    destruct (last (filter (fun m => Classify.is_user (heap w) m) messages))
      as [u|] eqn:Hlast.
    + assert (Hu : Classify.is_user (heap w) u).
      { apply last_Some_elem_of in Hlast.
        by apply list_elem_of_filter in Hlast as [Hu _]. }
      destruct (Eff.deref (heap w) u !! "content") as [[c| | |]|];
        try discriminate.
      injection Hrun as <- <-. simpl.
      apply (filter_system_fresh (heap w) _ messages []); [done|constructor|].
      apply user_object_not_system.
      by rewrite has_role_insert_content.
    + injection Hrun as <- <-. simpl.
      apply (filter_system_fresh (heap w) _ messages []);
        [done|constructor|vm_compute; reflexivity].
  - rewrite (handle_of_try_ok _ _ _ _ _ He) in Hrun. injection Hrun as <- <-.
    destruct (system_part_classes (heap w) [] messages Hv) as (Hs1 & _ & _).
    destruct (protected_part_classes (heap w) [] messages Hv) as (Hp1 & _ & _).
    rewrite app_nil_r in Hs1, Hp1.
    by rewrite filter_app, Hs1, Hp1, app_nil_r.
  - rewrite (handle_of_try_ok _ _ _ _ _ He) in Hrun. injection Hrun as <- <-.
    simpl. by apply filter_system_fresh.
Qed.

Section SurvivalRuns.
Import Eff CompressionService Classify Examples.

Lemma system_messages_survive_witness :
  filter (fun m => is_system
            (conversation
               ++ [ {[ "role" := VStr "user";
                       "content" :=
                         VStr "[Emergency mode] Book the first one." ]} ]) m)
    [0; 5]
  = filter (fun m => is_system (heap world0) m) [0; 1; 2; 3; 4].
Proof.
  apply (@system_messages_survive token_error_analyzer engine_ok clock
           [0; 1; 2; 3; 4] huge_limit_error world0
           {| heap :=
                conversation
                  ++ [ {[ "role" := VStr "user";
                          "content" :=
                            VStr "[Emergency mode] Book the first one." ]} ];
              engine_log := []; clock_reads := 0 |}).
  - unfold valid_refs. simpl. repeat constructor.
  - vm_compute. reflexivity.
Defined.

End SurvivalRuns.

(** ** Sample runs of the analyzer, the client and the segmentation *)

Section FurtherRuns.
Import Eff CompressionService Classify Examples ClientExamples.

Lemma openai_message_is_recognised_and_parsed_witness :
  OpenAILLM._is_token_limit_error
    ("This model's " +:+ "maximum context length is " +:+ Py.str_of_int 4097
       +:+ " tokens" +:+ ". However, your messages resulted in "
       +:+ Py.str_of_int 5000 +:+ " tokens" +:+ ". Please reduce the length.")
  = true.
Proof.
  apply (openai_message_is_recognised_and_parsed
           "This model's " ". However, your messages resulted in "
           ". Please reduce the length." 4097 5000);
    [lia|lia|reflexivity|reflexivity|reflexivity].
Defined.


Lemma conversation_that_fits_is_one_round_witness :
  @_split_into_segments token_error_analyzer
    (map (deref (heap world0)) [1; 3; 4]) (1000 / 2)
  = Ok [Grouping.segment_of TokenErrorAnalyzer.estimate_tokens
          (map (deref (heap world0)) [1; 3; 4])]
  /\ @_progressive_compression token_error_analyzer engine_ok
       [1; 3; 4] 1000 world0
     = (Ok match @compress_content engine_ok (length (engine_log world0)) ""
                   (Py.join (nl +:+ nl)
                      (map _format_message_content
                         (map (deref (heap world0)) [1; 3; 4])))
                   (1000 / 2) with
           | Ok summary => summary
           | Raise _ =>
               failed_round_summary "" 0
                 (Py.join (nl +:+ nl)
                    (map _format_message_content
                       (map (deref (heap world0)) [1; 3; 4])))
           end,
        with_log world0
          (engine_log world0 ++
             [ {| call_summary := "";
                  call_content :=
                    Py.join (nl +:+ nl)
                      (map _format_message_content
                         (map (deref (heap world0)) [1; 3; 4]));
                  call_max_tokens := (1000 / 2)%Z;
                  call_outcome :=
                    @compress_content engine_ok (length (engine_log world0)) ""
                      (Py.join (nl +:+ nl)
                         (map _format_message_content
                            (map (deref (heap world0)) [1; 3; 4])))
                      (1000 / 2) |} ])).
Proof.
  apply (@conversation_that_fits_is_one_round token_error_analyzer engine_ok
           TokenErrorAnalyzer.estimate_tokens [1; 3; 4] 1000 world0).
  - reflexivity.
  - intros s. rewrite estimate_tokens_div.
    apply Z.div_pos; [apply len_nonneg|lia].
  - repeat constructor.
  - done.
  - vm_compute. congruence.
Defined.

Lemma segment_message_types_witness :
  exists grouped segs,
    @_split_into_segments token_error_analyzer compressible_part 10 = Ok segs
    /\ concat grouped = compressible_part
    /\ Forall2 (fun seg g =>
         NoDup (message_types seg)
         /\ (forall role, role ∈ message_types seg <->
               exists msg, msg ∈ g /\ msg !! "role" = Some (VStr role))
         /\ (forall role, role ∈ message_types seg ->
               role = "user" \/ role = "tool"))
       segs grouped.
Proof.
  apply (@segment_message_types token_error_analyzer
           TokenErrorAnalyzer.estimate_tokens).
  - reflexivity.
  - repeat constructor.
Defined.

End FurtherRuns.
